(** * kombu.compat: carrot-compatible Publisher, Consumer and ConsumerSet

    A shallow embedding of [kombu/compat.py].  The broker, the connection
    and the base classes of [kombu.messaging] are the collaborators of
    that file; they are modelled as a world that the methods thread
    through their calls, together with a trace of the calls made on the
    collaborators. *)

From Stdlib Require Import ZArith String List Bool Lia.
From stdpp Require Import base option list gmap strings.

Local Open Scope Z_scope.

(** ** Values *)

(** A channel is identified by a number; a message carries a payload and
    the tag under which the broker delivered it.  A message object is
    always truthy, so [if message:] is a test against [None]. *)
Definition Channel := nat.

Record Message := mkMessage { payload : Z; delivery_tag : Z }.

(** [entity.Exchange(name, type=, routing_key=, auto_delete=, durable=)]:
    the record of the arguments the descriptor was built from. *)
Record Exchange := mkExchange {
  ex_name : string;
  ex_type : string;
  ex_routing_key : string;
  ex_auto_delete : bool;
  ex_durable : bool }.

(** [entity.Queue(name, exchange=, routing_key=, durable=, exclusive=,
    auto_delete=)]. *)
Record Queue := mkQueue {
  q_name : string;
  q_exchange : Exchange;
  q_routing_key : string;
  q_durable : bool;
  q_exclusive : bool;
  q_auto_delete : bool }.

(** The [exchange] argument of [Publisher] is a name or a descriptor that
    was built beforehand. *)
Inductive ExchangeArg :=
| ExName (name : string)
| ExDescriptor (e : Exchange).

(** ** Python's truthiness and the two defaulting idioms of the file *)

Definition str_truthy (s : string) : bool :=
  match s with EmptyString => false | _ => true end.

Definition exchange_truthy (e : ExchangeArg) : bool :=
  match e with ExName s => str_truthy s | ExDescriptor _ => true end.

(** [limit] as a condition: [None] and [0] are falsy. *)
Definition limit_truthy (limit : option Z) : bool :=
  match limit with None => false | Some l => negb (l =? 0) end.

(** [arg or default] for a truthiness test [t]. *)
Definition py_or {A} (t : A -> bool) (arg : option A) (default : A) : A :=
  match arg with
  | Some a => if t a then a else default
  | None => default
  end.

(** [if arg is not None: self.x = arg]. *)
Definition override_if_not_None {A} (arg : option A) (default : A) : A :=
  match arg with Some a => a | None => default end.

(** ** The world of collaborators *)

(** Calls made on the collaborators, in the order they were made. *)
Inductive Event :=
| EChannelOpen (ch : Channel)              (* connection.channel() *)
| EChannelClose (ch : Channel)             (* channel.close() *)
| EProducerClose                           (* messaging.Producer.close *)
| EConsume (no_ack : option bool)          (* consumer.consume(no_ack=..) *)
| ECancel                                  (* consumer.cancel() *)
| EDrainEvents                             (* connection.drain_events() *)
| EGet (queue : string) (no_ack : bool)    (* queue.get(no_ack) *)
| EReceive (body : Z) (message : Message)  (* consumer.receive(..) *)
| EPurge (queue : string)                  (* queue.purge() *)
| EAddQueue (queue : string).              (* consumer.add_queue(..) *)

(** The connection is an interface: it opens channels and drains one
    event at a time, returning what the transport returns for it. *)
Class Connection (C V : Type) := {
  open_channel : C -> Channel * C;
  drain_events : C -> V * C }.

Record World (C : Type) := mkWorld {
  conn : C;
  broker : gmap string (list Message);
  trace : list Event }.

Arguments mkWorld {C} _ _ _.
Arguments conn {C} _.
Arguments broker {C} _.
Arguments trace {C} _.

(** ** A state and exception monad *)

Inductive exn :=
| NotImplementedError (msg : string)
| IndexError.

Inductive result (A : Type) :=
| Ok (a : A)
| Raise (e : exn).

Arguments Ok {A} _.
Arguments Raise {A} _.

Definition M (C A : Type) : Type := World C -> result A * World C.

Definition ret {C A} (a : A) : M C A := fun w => (Ok a, w).

Definition raise {C A} (e : exn) : M C A := fun w => (Raise e, w).

Definition bind {C A B} (m : M C A) (k : A -> M C B) : M C B :=
  fun w => match m w with
           | (Ok a, w') => k a w'
           | (Raise e, w') => (Raise e, w')
           end.

Notation "x <- m ;; k" := (bind m (fun x => k))
  (at level 100, m at next level, k at level 200, right associativity).
Notation "m ;; k" := (bind m (fun _ => k))
  (at level 100, k at level 200, right associativity).

Definition log {C} (e : Event) : M C unit :=
  fun w => (Ok tt, mkWorld (conn w) (broker w) (trace w ++ [e])).

(** ** The collaborators' operations *)

(** [connection.channel()]. *)
Definition connection_channel {C V} `{Connection C V} : M C Channel :=
  fun w => let '(ch, c') := open_channel (conn w) in
           (Ok ch, mkWorld c' (broker w) (trace w ++ [EChannelOpen ch])).

(** [connection.drain_events()]. *)
Definition connection_drain_events {C V} `{Connection C V} : M C V :=
  fun w => let '(v, c') := drain_events (conn w) in
           (Ok v, mkWorld c' (broker w) (trace w ++ [EDrainEvents])).

(** Modelled from the spec: [entity.Queue.get], the channel's
    retrieve-one-message capability.  It takes the oldest message off the
    named queue and returns it, or returns [None] when nothing is queued. *)
Definition Queue_get {C} (q : Queue) (no_ack : bool) : M C (option Message) :=
  fun w =>
    let t := trace w ++ [EGet (q_name q) no_ack] in
    match broker w !! q_name q with
    | Some (m :: ms) => (Ok (Some m), mkWorld (conn w) (<[q_name q := ms]> (broker w)) t)
    | _ => (Ok None, mkWorld (conn w) (broker w) t)
    end.

(** [queues[0]]: indexing an empty list raises. *)
Definition first_queue {C} (queues : list Queue) : M C Queue :=
  match queues !! 0%nat with
  | Some q => ret q
  | None => raise IndexError
  end.

(** ** Generators *)

(** A generator is the function [next] over its program counter: it has
    not started, it is suspended at the [yield] of an iteration, or it
    has finished.  The body runs only when [next] is called, so a fresh
    generator has made no call yet.  [raise StopIteration] in the body
    ends the sequence, as it does on the Python 2 that the module is
    written for; an exception of a collaborator ends it as well and
    reaches the caller of [next]. *)
Inductive pc :=
| Fresh
| Suspended (iteration : nat)
| Finished.

Inductive step (T : Type) :=
| Yield (v : T)
| StopIteration.

Arguments Yield {T} _.
Arguments StopIteration {T}.

Definition gen (C T : Type) : Type := pc -> M C (step T * pc).

(** The value of [count()] in the iteration that the next call runs. *)
Definition next_iteration (p : pc) : option nat :=
  match p with
  | Fresh => Some 0%nat
  | Suspended i => Some (S i)
  | Finished => None
  end.

(** [list(it)]: calls [next] until the sequence ends.  [None] when the
    fuel runs out before that. *)
Fixpoint collect {C T} (fuel : nat) (g : gen C T) (p : pc) : M C (option (list T)) :=
  match fuel with
  | O => ret None
  | S fuel' =>
      r <- g p ;;
      match r with
      | (StopIteration, _) => ret (Some [])
      | (Yield v, p') =>
          rest <- collect fuel' g p' ;;
          ret (option_map (cons v) rest)
      end
  end.

(** [k] calls of [next], with what each returned. *)
Fixpoint advance {C T} (k : nat) (g : gen C T) (p : pc) : M C (list (step T) * pc) :=
  match k with
  | O => ret ([], p)
  | S k' =>
      r <- g p ;;
      rest <- advance k' g (snd r) ;;
      ret (fst r :: fst rest, snd rest)
  end.

(** [item is None]. *)
Definition is_None {A} (o : option A) : bool :=
  match o with None => true | Some _ => false end.

(** [limit and iteration >= limit]. *)
Definition past_limit (limit : option Z) (iteration : nat) : bool :=
  limit_truthy limit &&
  match limit with
  | Some l => Z.of_nat iteration >=? l
  | None => false
  end.

(** ** The base classes of [kombu.messaging] *)

Module messaging.

(** The state that [messaging.Consumer] keeps for its subclasses. *)
Record Consumer := mkConsumer {
  channel : Channel;
  queues : list Queue;
  no_ack : bool }.

(** Modelled from the spec: [messaging.Consumer.__init__], which keeps
    the channel, the queue collection it is given and the no_ack policy
    of its keyword arguments. *)
Definition Consumer_init {C} (ch : Channel) (qs : list Queue) (policy : bool)
  : M C Consumer :=
  ret (mkConsumer ch qs policy).

(** [consumer.consume(no_ack=..)]: the start-consuming registration,
    recorded with the argument it was called with. *)
Definition consume {C} (self : Consumer) (no_ack : option bool) : M C unit :=
  log (EConsume no_ack).

(** [consumer.receive(body, message)]: the callback dispatch. *)
Definition receive {C} (self : Consumer) (body : Z) (message : Message) : M C unit :=
  log (EReceive body message).

(** Modelled from the spec: [queue.purge()], the purge-all-messages
    capability; it empties the named queue and returns how many
    messages it held. *)
Definition Queue_purge {C} (q : Queue) : M C Z :=
  fun w =>
    let t := trace w ++ [EPurge (q_name q)] in
    match broker w !! q_name q with
    | Some ms => (Ok (Z.of_nat (length ms)), mkWorld (conn w) (<[q_name q := []]> (broker w)) t)
    | None => (Ok 0, mkWorld (conn w) (broker w) t)
    end.

(** Modelled from the spec: [consumer.purge()], which purges every
    bound queue and returns the number of messages discarded. *)
Fixpoint purge_queues {C} (qs : list Queue) : M C Z :=
  match qs with
  | [] => ret 0
  | q :: qs' =>
      n <- Queue_purge q ;;
      k <- purge_queues qs' ;;
      ret (n + k)
  end.

Definition purge {C} (self : Consumer) : M C Z := purge_queues (queues self).

(** Modelled from the spec: [consumer.add_queue(queue)], which extends
    the bound-queue collection by the queue it is given. *)
Definition add_queue {C} (self : Consumer) (q : Queue) : M C Consumer :=
  log (EAddQueue (q_name q)) ;;
  ret (mkConsumer (channel self) (queues self ++ [q]) (no_ack self)).

(** Modelled from the spec: [messaging.Producer.__init__], which keeps
    the channel it is given, or opens one when it is given the
    connection. *)
Definition Producer_init {C V} `{Connection C V} (provided : option Channel)
  : M C (option Channel) :=
  match provided with
  | Some ch => ret (Some ch)
  | None => ch <- connection_channel ;; ret (Some ch)
  end.

(** [messaging.Producer.close]. *)
Definition Producer_close {C} : M C unit := log EProducerClose.

(** [consumer.cancel()]: the end of the delivery to this consumer. *)
Definition cancel {C} (self : Consumer) : M C unit := log ECancel.

(** Modelled from the spec: [messaging.Consumer.revive(channel)], which
    rebinds the consumer to the channel it is given and keeps the queue
    collection and the policy. *)
Definition revive {C} (self : Consumer) (ch : Channel) : M C Consumer :=
  ret (mkConsumer ch (queues self) (no_ack self)).

End messaging.

(** ** [_iterconsume] *)

Definition _iterconsume {C V} `{Connection C V}
    (consumer : messaging.Consumer) (no_ack : option bool) (limit : option Z)
  : gen C V :=
  fun p =>
    match next_iteration p with
    | None => ret (StopIteration, Finished)
    | Some iteration =>
        match p with
        | Fresh => messaging.consume consumer no_ack
        | _ => ret tt
        end ;;
        if past_limit limit iteration then ret (StopIteration, Finished)
        else v <- connection_drain_events ;; ret (Yield v, Suspended iteration)
    end.

(** ** [class Publisher(messaging.Producer)] *)

Module Publisher.

(** The class-level attributes, which a subclass may redefine. *)
Record attrs := mkAttrs {
  cls_exchange : ExchangeArg;
  cls_exchange_type : string;
  cls_routing_key : string;
  cls_durable : bool;
  cls_auto_delete : bool }.

Definition cls : attrs :=
  mkAttrs (ExName "") "direct" "" true false.

Record t := mk {
  exchange : Exchange;
  exchange_type : string;
  routing_key : string;
  durable : bool;
  auto_delete : bool;
  channel : option Channel;
  _provided_channel : bool;
  _closed : bool }.

Definition __init__ {C V} `{Connection C V} (k : attrs)
    (exchange : option ExchangeArg) (routing_key exchange_type : option string)
    (durable auto_delete : option bool) (channel : option Channel)
  : M C t :=
  let _provided_channel := match channel with Some _ => true | None => false end in
  let exchange := py_or exchange_truthy exchange (cls_exchange k) in
  let exchange_type := py_or str_truthy exchange_type (cls_exchange_type k) in
  let routing_key := py_or str_truthy routing_key (cls_routing_key k) in
  let auto_delete := override_if_not_None auto_delete (cls_auto_delete k) in
  let durable := override_if_not_None durable (cls_durable k) in
  let exchange :=
    match exchange with
    | ExDescriptor e => e
    | ExName name => mkExchange name exchange_type routing_key auto_delete durable
    end in
  ch <- messaging.Producer_init channel ;;
  ret (mk exchange exchange_type routing_key durable auto_delete ch
          _provided_channel false).

Definition close {C} (self : t) : M C t :=
  match channel self with
  | Some ch => if negb (_provided_channel self) then log (EChannelClose ch) else ret tt
  | None => ret tt
  end ;;
  messaging.Producer_close ;;
  ret (mk (exchange self) (exchange_type self) (routing_key self) (durable self)
          (auto_delete self) (channel self) (_provided_channel self) true).

Definition __enter__ {C} (self : t) : M C t := ret self.

(** [__exit__] returns [None]: the second component says that the
    exception of the body, if any, is not suppressed. *)
Definition __exit__ {C} (self : t) (exc_info : option exn) : M C (t * bool) :=
  s <- close self ;;
  ret (s, false).

Definition backend (self : t) : option Channel := channel self.

End Publisher.

(** ** [class Consumer(messaging.Consumer)] *)

Module Consumer.

Record attrs := mkAttrs {
  cls_queue : string;
  cls_exchange : string;
  cls_routing_key : string;
  cls_exchange_type : string;
  cls_durable : bool;
  cls_exclusive : bool;
  cls_auto_delete : bool }.

Definition cls : attrs :=
  mkAttrs "" "" "" "direct" true false false.

Record t := mk {
  base : messaging.Consumer;
  backend : Channel;
  queue : string;
  exchange : string;
  routing_key : string;
  exchange_type : string;
  durable : bool;
  exclusive : bool;
  auto_delete : bool;
  _closed : bool }.

Definition queues (self : t) : list Queue := messaging.queues (base self).
Definition no_ack (self : t) : bool := messaging.no_ack (base self).

(** [policy] is the no_ack policy that the keyword arguments hand to
    the base constructor. *)
Definition __init__ {C V} `{Connection C V} (k : attrs)
    (queue exchange routing_key exchange_type : option string)
    (durable exclusive auto_delete : option bool) (policy : bool)
  : M C t :=
  backend <- connection_channel ;;
  let durable := override_if_not_None durable (cls_durable k) in
  let exclusive := override_if_not_None exclusive (cls_exclusive k) in
  let auto_delete := override_if_not_None auto_delete (cls_auto_delete k) in
  let queue := py_or str_truthy queue (cls_queue k) in
  let exchange := py_or str_truthy exchange (cls_exchange k) in
  let exchange_type := py_or str_truthy exchange_type (cls_exchange_type k) in
  let routing_key := py_or str_truthy routing_key (cls_routing_key k) in
  let exchange_d := mkExchange exchange exchange_type routing_key auto_delete durable in
  let queue_d := mkQueue queue exchange_d routing_key durable exclusive auto_delete in
  b <- messaging.Consumer_init backend [queue_d] policy ;;
  ret (mk b backend queue exchange routing_key exchange_type durable exclusive
          auto_delete false).

Definition fetch {C} (self : t) (no_ack : option bool) (enable_callbacks : bool)
  : M C (option Message) :=
  let no_ack :=
    match no_ack with
    | None => Consumer.no_ack self
    | Some b => b
    end in
  q <- first_queue (queues self) ;;
  message <- Queue_get q no_ack ;;
  match message with
  | Some m =>
      (if enable_callbacks
       then messaging.receive (base self) (payload m) m
       else ret tt) ;;
      ret message
  | None => ret message
  end.

Definition process_next {C A} (self : t) : M C A :=
  raise (NotImplementedError "Use fetch(enable_callbacks=True)").

Definition discard_all {C F} (self : t) (filterfunc : option F) : M C Z :=
  match filterfunc with
  | Some _ => raise (NotImplementedError "discard_all does not implement filters")
  | None => messaging.purge (base self)
  end.

Definition iterconsume {C V} `{Connection C V} (self : t)
    (limit : option Z) (no_ack : option bool) : gen C V :=
  _iterconsume (base self) no_ack limit.

(** [list(it)] runs as long as the sequence does; [fuel] bounds the
    number of [next] calls of the model. *)
Definition wait {C V} `{Connection C V} (fuel : nat) (self : t) (limit : option Z)
  : M C (option (list V)) :=
  collect fuel (iterconsume self limit None) Fresh.

Definition iterqueue {C} (self : t) (limit : option Z) (infinite : bool)
  : gen C (option Message) :=
  fun p =>
    match next_iteration p with
    | None => ret (StopIteration, Finished)
    | Some items_since_start =>
        item <- fetch self None false ;;
        if (negb infinite && is_None item)
           || past_limit limit items_since_start
        then ret (StopIteration, Finished)
        else ret (Yield item, Suspended items_since_start)
    end.

Definition __iter__ {C} (self : t) : gen C (option Message) :=
  iterqueue self None true.

Definition revive {C} (self : t) (channel : Channel) : M C t :=
  b <- messaging.revive (base self) channel ;;
  ret (mk b channel (queue self) (exchange self) (routing_key self)
          (exchange_type self) (durable self) (exclusive self) (auto_delete self)
          (_closed self)).

Definition close {C} (self : t) : M C t :=
  messaging.cancel (base self) ;;
  log (EChannelClose (backend self)) ;;
  ret (mk (base self) (backend self) (queue self) (exchange self) (routing_key self)
          (exchange_type self) (durable self) (exclusive self) (auto_delete self)
          true).

Definition __enter__ {C} (self : t) : M C t := ret self.

Definition __exit__ {C} (self : t) (exc_info : option exn) : M C (t * bool) :=
  s <- close self ;;
  ret (s, false).

End Consumer.

(** ** [class ConsumerSet(messaging.Consumer)] *)

Module ConsumerSet.

Record t := mk {
  base : messaging.Consumer;
  backend : Channel }.

Definition queues (self : t) : list Queue := messaging.queues (base self).

Section WithEntryDecoder.

(** [common.entry_to_queue(name, **options)], the decoder of a
    declarative entry, and the type of the options it reads. *)
Context {Options : Type} (entry_to_queue : string -> Options -> Queue).
Context {C V : Type} `{Connection C V}.

(** [from_dict] is given by its [items()], in iteration order. *)
Definition __init__ (from_dict : option (list (string * Options)))
    (consumers : option (list Consumer.t)) (policy : bool) : M C t :=
  backend <- connection_channel ;;
  let queues := [] in
  let queues :=
    match consumers with
    | Some ((_ :: _) as cs) =>
        fold_left (fun qs consumer => qs ++ Consumer.queues consumer) cs queues
    | _ => queues
    end in
  let queues :=
    match from_dict with
    | Some ((_ :: _) as items) =>
        fold_left
          (fun qs item => qs ++ [entry_to_queue (fst item) (snd item)])
          items queues
    | _ => queues
    end in
  b <- messaging.Consumer_init backend queues policy ;;
  ret (mk b backend).

Definition iterconsume (self : t) (limit : option Z) (no_ack : option bool)
  : gen C V :=
  _iterconsume (base self) no_ack limit.

Definition discard_all (self : t) : M C Z := messaging.purge (base self).

Definition add_consumer_from_dict (self : t) (queue : string) (options : Options)
  : M C t :=
  b <- messaging.add_queue (base self) (entry_to_queue queue options) ;;
  ret (mk b (backend self)).

Definition add_consumer (self : t) (consumer : Consumer.t) : M C t :=
  fold_left
    (fun m queue =>
       s <- m ;;
       b <- messaging.add_queue (base s) queue ;;
       ret (mk b (backend s)))
    (Consumer.queues consumer) (ret self).

End WithEntryDecoder.

Definition revive {C} (self : t) (channel : Channel) : M C t :=
  b <- messaging.revive (base self) channel ;;
  ret (mk b channel).

(** [close] closes [self.channel], the channel that the base class
    keeps. *)
Definition close {C} (self : t) : M C t :=
  messaging.cancel (base self) ;;
  log (EChannelClose (messaging.channel (base self))) ;;
  ret self.

End ConsumerSet.

(** ** The [with] statement *)

(** [with mgr as v: body]: [__enter__] gives the value that the body
    uses; [__exit__] runs when the body returns and when it raises, and
    the exception of the body goes on to the caller unless [__exit__]
    returns a true value.  The result is the value of the body, if it
    returned one, and the manager as [__exit__] left it. *)
Definition with_ {C S A}
    (enter : S -> M C S) (exit : S -> option exn -> M C (S * bool))
    (mgr : S) (body : S -> M C A) : M C (option A * S) :=
  fun w =>
    match enter mgr w with
    | (Raise e, w1) => (Raise e, w1)
    | (Ok v, w1) =>
        match body v w1 with
        | (Ok a, w2) =>
            match exit mgr None w2 with
            | (Ok (s, _), w3) => (Ok (Some a, s), w3)
            | (Raise e, w3) => (Raise e, w3)
            end
        | (Raise e, w2) =>
            match exit mgr (Some e) w2 with
            | (Ok (s, suppress), w3) =>
                if suppress then (Ok (None, s), w3) else (Raise e, w3)
            | (Raise e', w3) => (Raise e', w3)
            end
        end
    end.

(** ** Observations on runs *)

(** What [n] successive calls of [drain_events] return, and the
    connection they leave. *)
Fixpoint drain_n {C V} `{Connection C V} (n : nat) (c : C) : list V * C :=
  match n with
  | O => ([], c)
  | S n' =>
      let '(v, c') := drain_events c in
      let '(vs, c'') := drain_n n' c' in
      (v :: vs, c'')
  end.

Definition is_consume (e : Event) : bool :=
  match e with EConsume _ => true | _ => false end.

Definition is_drain (e : Event) : bool :=
  match e with EDrainEvents => true | _ => false end.

Definition is_get (e : Event) : bool :=
  match e with EGet _ _ => true | _ => false end.

Definition is_receive (e : Event) : bool :=
  match e with EReceive _ _ => true | _ => false end.

Definition is_channel_close (e : Event) : bool :=
  match e with EChannelClose _ => true | _ => false end.

Definition is_purge (e : Event) : bool :=
  match e with EPurge _ => true | _ => false end.

(** How many of the calls in [t] satisfy [f]. *)
Definition calls (f : Event -> bool) (t : list Event) : nat :=
  length (List.filter f t).

(** The messages that wait on a queue. *)
Definition available {C} (w : World C) (q : Queue) : list Message :=
  default [] (broker w !! q_name q).

(** [n] calls of [get] on queue [q] under the policy of the instance:
    the calls that a run of [iterqueue] makes. *)
Definition gets (self : Consumer.t) (q : Queue) (n : nat) : list Event :=
  repeat (EGet (q_name q) (Consumer.no_ack self)) n.

(** Override-if-not-None, in the words of the specification: the
    effective value is the argument when one was passed, and the default
    otherwise. *)
Definition given_or_default {A} (arg : option A) (default effective : A) : Prop :=
  (forall a, arg = Some a -> effective = a) /\ (arg = None -> effective = default).

(** Override-if-truthy for strings: the effective value is the argument
    when a non-empty one was passed, and the default otherwise. *)
Definition nonempty_or_default (arg : option string) (default effective : string) : Prop :=
  (forall s, arg = Some s -> s <> EmptyString -> effective = s)
  /\ (arg = None \/ arg = Some EmptyString -> effective = default).

(** The calls on record after a run. *)
Definition calls_of {C A} (r : result A * World C) : list Event := trace (snd r).

(** A connection for closed examples: channel numbers and drained values
    count up from the state of the connection. *)
#[export] Instance counting_connection : Connection nat Z := {
  open_channel n := (n, S n);
  drain_events n := (Z.of_nat n, S n) }.

(** What a run returned, what it left on a queue and the calls on
    record. *)
Definition outcome {C A} (q : Queue) (r : result A * World C)
  : result A * list Message * list Event :=
  (fst r, available (snd r) q, trace (snd r)).

(** A consumer of the queue [orders], and a world in which three
    messages wait on that queue. *)
Definition orders_exchange : Exchange := mkExchange "orders-ex" "direct" "new" false true.

Definition orders_queue : Queue := mkQueue "orders" orders_exchange "new" true false false.

Definition orders_consumer (policy : bool) : Consumer.t :=
  Consumer.mk (messaging.mkConsumer 0%nat [orders_queue] policy) 0%nat
              "orders" "orders-ex" "new" "direct" true false false false.

Definition three_orders : World nat :=
  mkWorld 0%nat
          {[ "orders"%string := [mkMessage 10 1; mkMessage 20 2; mkMessage 30 3] ]}
          [].

Definition idle : World nat := mkWorld 0%nat ∅ [].

(** The world after one more drained event, and after the registration
    of the consumer. *)
Definition drained {C V} `{Connection C V} (w : World C) : World C :=
  mkWorld (snd (drain_events (conn w))) (broker w) (trace w ++ [EDrainEvents]).

Definition registered {C} (no_ack : option bool) (w : World C) : World C :=
  mkWorld (conn w) (broker w) (trace w ++ [EConsume no_ack]).

(** The world after one more [get] by [self] on queue [q] that left
    [rest] on the queue. *)
Definition after_get {C} (self : Consumer.t) (q : Queue) (rest : list Message)
    (w : World C) : World C :=
  mkWorld (conn w) (<[q_name q := rest]> (broker w)) (trace w ++ gets self q 1).

(** The items of [k] fetches on a queue that holds [msgs]: the messages
    as long as there are any, [None] from then on. *)
Definition fetched (k : nat) (msgs : list Message) : list (option Message) :=
  map Some (take k msgs) ++ repeat None (k - length msgs).

(** The calls that record the extension of a queue collection by
    [queues]. *)
Definition added_queues (queues : list Queue) : list Event :=
  map (fun q => EAddQueue (q_name q)) queues.

(** The set after [add_queue(q)]. *)
Definition extended (s : ConsumerSet.t) (q : Queue) : ConsumerSet.t :=
  ConsumerSet.mk
    (messaging.mkConsumer (messaging.channel (ConsumerSet.base s))
                          (ConsumerSet.queues s ++ [q])
                          (messaging.no_ack (ConsumerSet.base s)))
    (ConsumerSet.backend s).

(** A caller that extends a set by the queues of each consumer and then
    by each declarative entry. *)
Definition add_all {Options C} (entry_to_queue : string -> Options -> Queue)
    (self : ConsumerSet.t) (consumers : list Consumer.t)
    (items : list (string * Options)) : M C ConsumerSet.t :=
  s1 <- fold_left (fun m consumer => s <- m ;; ConsumerSet.add_consumer s consumer)
                  consumers (ret self) ;;
  fold_left
    (fun m item =>
       s <- m ;;
       ConsumerSet.add_consumer_from_dict entry_to_queue s (fst item) (snd item))
    items (ret s1).

(** ** Facts on the helpers *)

Lemma past_limit_reached (n i : nat) :
  (0 < n)%nat -> (n <= i)%nat -> past_limit (Some (Z.of_nat n)) i = true.
Proof.
  intros Hn Hi. unfold past_limit, limit_truthy.
  apply andb_true_intro. split.
  - apply negb_true_iff, Z.eqb_neq. lia.
  - apply Z.geb_le. lia.
Qed.

Lemma past_limit_not_reached (n i : nat) :
  (i < n)%nat -> past_limit (Some (Z.of_nat n)) i = false.
Proof.
  intros Hi. unfold past_limit. apply andb_false_intro2.
  destruct (Z.of_nat i >=? Z.of_nat n) eqn:E; [|reflexivity].
  apply Z.geb_le in E. lia.
Qed.

Lemma past_limit_zero (i : nat) : past_limit (Some 0) i = false.
Proof. reflexivity. Qed.

Lemma past_limit_None (i : nat) : past_limit None i = false.
Proof. reflexivity. Qed.

Lemma calls_app f (t1 t2 : list Event) :
  calls f (t1 ++ t2) = (calls f t1 + calls f t2)%nat.
Proof. unfold calls. rewrite List.filter_app. apply length_app. Qed.

Lemma calls_repeat_same f e (n : nat) :
  f e = true -> calls f (repeat e n) = n.
Proof.
  intros He. unfold calls. induction n as [|n IH]; simpl; [reflexivity|].
  rewrite He. simpl. now rewrite IH.
Qed.

Lemma calls_repeat_other f e (n : nat) :
  f e = false -> calls f (repeat e n) = 0%nat.
Proof.
  intros He. unfold calls. induction n as [|n IH]; simpl; [reflexivity|].
  now rewrite He.
Qed.

Lemma world_eta {C} (w : World C) : mkWorld (conn w) (broker w) (trace w) = w.
Proof. now destruct w. Qed.

(** ** The drain loop *)

Section DrainLoop.

Context {C V : Type} `{Connection C V}.
Variable consumer : messaging.Consumer.
Variable no_ack : option bool.

(** From the [yield] of iteration [j], with [k] iterations left below
    the limit, the rest of the sequence is [k] drained events. *)
Lemma iterconsume_from_suspended (n k : nat) :
  forall (j fuel : nat) (w : World C),
    (S j + k = n)%nat -> (k < fuel)%nat ->
    collect fuel (_iterconsume consumer no_ack (Some (Z.of_nat n))) (Suspended j) w =
      (Ok (Some (fst (drain_n k (conn w)))),
       mkWorld (snd (drain_n k (conn w))) (broker w)
               (trace w ++ repeat EDrainEvents k)).
Proof.
  induction k as [|k IH]; intros j fuel w Hn Hfuel.
  - destruct fuel as [|fuel]; [lia|].
    simpl. unfold bind, _iterconsume. simpl.
    rewrite past_limit_reached by lia. unfold ret. simpl.
    rewrite app_nil_r. now rewrite world_eta.
  - destruct fuel as [|fuel]; [lia|].
    cbn [collect]. unfold bind at 1. unfold _iterconsume at 1.
    cbn [next_iteration]. unfold bind at 1. unfold ret at 1.
    rewrite past_limit_not_reached by lia.
    unfold bind at 1. unfold connection_drain_events at 1.
    cbn [drain_n].
    destruct (drain_events (conn w)) as [v c'] eqn:Ed.
    unfold ret at 1. unfold bind at 1.
    rewrite (IH (S j) fuel) by lia.
    cbn [conn broker trace].
    destruct (drain_n k c') as [vs c''] eqn:Ek.
    unfold ret. cbn [fst snd option_map].
    rewrite <- app_assoc. reflexivity.
Qed.

End DrainLoop.

(** C1. For a positive limit [N], running [iterconsume(limit=N)] to its
    end registers the consumer exactly once, with a single [consume]
    call before anything is drained, and then calls [drain_events]
    exactly [N] times; the elements of the sequence are the [N] values
    that those calls returned, in order. *)
Theorem iterconsume_one_consume_N_drains
    {C V : Type} `{Connection C V}
    (self : Consumer.t) (no_ack : option bool) (N : Z) (fuel : nat) (w : World C) :
  0 < N -> (Z.to_nat N < fuel)%nat ->
  exists added : list Event,
    collect fuel (Consumer.iterconsume self (Some N) no_ack) Fresh w =
      (Ok (Some (fst (drain_n (Z.to_nat N) (conn w)))),
       mkWorld (snd (drain_n (Z.to_nat N) (conn w))) (broker w) (trace w ++ added))
    /\ added = EConsume no_ack :: repeat EDrainEvents (Z.to_nat N)
    /\ calls is_consume added = 1%nat
    /\ calls is_drain added = Z.to_nat N
    /\ length (fst (drain_n (Z.to_nat N) (conn w))) = Z.to_nat N.
Proof.
  intros HN Hfuel.
  exists (EConsume no_ack :: repeat EDrainEvents (Z.to_nat N)).
  assert (Hlen : forall (k : nat) (c : C), length (fst (drain_n k c)) = k).
  { induction k as [|k IH]; intros c; simpl; [reflexivity|].
    destruct (drain_events c) as [v c']. specialize (IH c').
    destruct (drain_n k c') as [vs c'']. simpl in *. now rewrite IH. }
  split; [|split; [reflexivity|split; [|split; [|apply Hlen]]]].
  - remember (Z.to_nat N) as n eqn:En.
    assert (HNn : N = Z.of_nat n) by lia. subst N.
    destruct n as [|n]; [lia|].
    destruct fuel as [|fuel]; [lia|].
    unfold Consumer.iterconsume.
    cbn [collect]. unfold bind at 1. unfold _iterconsume at 1.
    cbn [next_iteration]. unfold bind at 1.
    unfold messaging.consume, log.
    rewrite past_limit_not_reached by lia.
    unfold bind at 1. unfold connection_drain_events at 1.
    cbn [conn broker trace drain_n].
    destruct (drain_events (conn w)) as [v c'] eqn:Ed.
    unfold ret at 1. unfold bind at 1.
    rewrite (iterconsume_from_suspended _ _ (S n) n 0 fuel) by lia.
    cbn [conn broker trace].
    destruct (drain_n n c') as [vs c''] eqn:Ek.
    unfold ret. cbn [fst snd option_map].
    repeat rewrite <- app_assoc. reflexivity.
  - change (EConsume no_ack :: repeat EDrainEvents (Z.to_nat N))
      with ([EConsume no_ack] ++ repeat EDrainEvents (Z.to_nat N)).
    rewrite calls_app, calls_repeat_other by reflexivity. reflexivity.
  - change (EConsume no_ack :: repeat EDrainEvents (Z.to_nat N))
      with ([EConsume no_ack] ++ repeat EDrainEvents (Z.to_nat N)).
    rewrite calls_app, calls_repeat_same by reflexivity. reflexivity.
Qed.

Lemma iterconsume_one_consume_N_drains_witness :
  0 < 3 /\ (Z.to_nat 3 < 5)%nat /\
  exists added : list Event,
    collect 5
      (Consumer.iterconsume (orders_consumer false) (Some 3) None)
      Fresh (mkWorld 7%nat ∅ []) =
      (Ok (Some (fst (drain_n (Z.to_nat 3) 7%nat))),
       mkWorld (snd (drain_n (Z.to_nat 3) 7%nat)) ∅ ([] ++ added))
    /\ added = EConsume None :: repeat EDrainEvents (Z.to_nat 3)
    /\ calls is_consume added = 1%nat
    /\ calls is_drain added = Z.to_nat 3
    /\ length (fst (drain_n (Z.to_nat 3) 7%nat)) = Z.to_nat 3.
Proof.
  split; [lia|]. split; [simpl; lia|].
  apply (iterconsume_one_consume_N_drains (orders_consumer false) None 3 5
                                          (mkWorld 7%nat ∅ [])); [lia | simpl; lia].
Defined.

(** ** The drain loop without an effective limit *)

Section Unbounded.

Context {C V : Type} `{Connection C V}.
Variable consumer : messaging.Consumer.
Variable no_ack : option bool.
Variable limit : option Z.
Hypothesis limit_falsy : limit_truthy limit = false.

Lemma past_limit_falsy (i : nat) : past_limit limit i = false.
Proof. unfold past_limit. now rewrite limit_falsy. Qed.

Lemma unbounded_from_suspended (k : nat) :
  forall (j : nat) (w : World C),
    advance k (_iterconsume consumer no_ack limit) (Suspended j) w =
      (Ok (map Yield (fst (drain_n k (conn w))), Suspended (j + k)),
       mkWorld (snd (drain_n k (conn w))) (broker w)
               (trace w ++ repeat EDrainEvents k)).
Proof.
  induction k as [|k IH]; intros j w.
  - simpl. unfold ret. rewrite app_nil_r, world_eta.
    now replace (j + 0)%nat with j by lia.
  - cbn [advance]. unfold bind at 1. unfold _iterconsume at 1.
    cbn [next_iteration]. unfold bind at 1. unfold ret at 1.
    rewrite past_limit_falsy.
    unfold bind at 1. unfold connection_drain_events at 1.
    cbn [drain_n].
    destruct (drain_events (conn w)) as [v c'] eqn:Ed.
    unfold ret at 1. cbn [snd fst]. unfold bind at 1.
    rewrite (IH (S j)). cbn [conn broker trace].
    destruct (drain_n k c') as [vs c''] eqn:Ek.
    unfold ret. cbn [fst snd map].
    rewrite <- app_assoc.
    now replace (j + S k)%nat with (S j + k)%nat by lia.
Qed.

Lemma unbounded_from_fresh (k : nat) (w : World C) :
  advance (S k) (_iterconsume consumer no_ack limit) Fresh w =
    (Ok (map Yield (fst (drain_n (S k) (conn w))), Suspended k),
     mkWorld (snd (drain_n (S k) (conn w))) (broker w)
             (trace w ++ EConsume no_ack :: repeat EDrainEvents (S k))).
Proof.
  cbn [advance]. unfold bind at 1. unfold _iterconsume at 1.
  cbn [next_iteration]. unfold bind at 1.
  unfold messaging.consume, log.
  rewrite past_limit_falsy.
  unfold bind at 1. unfold connection_drain_events at 1.
  cbn [conn broker trace drain_n].
  destruct (drain_events (conn w)) as [v c'] eqn:Ed.
  unfold ret at 1. cbn [snd fst]. unfold bind at 1.
  rewrite (unbounded_from_suspended k 0). cbn [conn broker trace].
  destruct (drain_n k c') as [vs c''] eqn:Ek.
  unfold ret. cbn [fst snd map repeat].
  repeat rewrite <- app_assoc. reflexivity.
Qed.

(** Collecting the sequence uses up any amount of fuel. *)
Lemma unbounded_never_ends (fuel : nat) :
  forall (p : pc) (w : World C),
    p <> Finished ->
    fst (collect fuel (_iterconsume consumer no_ack limit) p w) = Ok None.
Proof.
  induction fuel as [|fuel IH]; intros p w Hp; [reflexivity|].
  cbn [collect]. unfold bind at 1. unfold _iterconsume at 1.
  destruct p as [|j|]; [| |congruence]; cbn [next_iteration].
  - unfold bind at 1. unfold messaging.consume, log.
    rewrite past_limit_falsy.
    unfold bind at 1. unfold connection_drain_events at 1.
    cbn [conn broker trace].
    destruct (drain_events (conn w)) as [v c'].
    unfold ret at 1. unfold bind at 1.
    match goal with
    | |- context [collect fuel ?g ?p ?w'] =>
        pose proof (IH p w' ltac:(discriminate)) as Hr;
        destruct (collect fuel g p w') as [[r|e] w'']
    end; simpl in Hr; [|discriminate].
    injection Hr as ->. reflexivity.
  - unfold bind at 1. unfold ret at 1.
    rewrite past_limit_falsy.
    unfold bind at 1. unfold connection_drain_events at 1.
    destruct (drain_events (conn w)) as [v c'].
    unfold ret at 1. unfold bind at 1.
    match goal with
    | |- context [collect fuel ?g ?p ?w'] =>
        pose proof (IH p w' ltac:(discriminate)) as Hr;
        destruct (collect fuel g p w') as [[r|e] w'']
    end; simpl in Hr; [|discriminate].
    injection Hr as ->. reflexivity.
Qed.

End Unbounded.

(** C9. [iterconsume(limit=0)] is the unbounded sequence of
    [iterconsume(limit=None)]: every call of [next] does the same in
    both, any number of calls of [next] all yield a drained event, and
    collecting the sequence never reaches its end. *)
Theorem iterconsume_limit_zero_unbounded
    {C V : Type} `{Connection C V}
    (self : Consumer.t) (no_ack : option bool) (w : World C) :
  (forall (p : pc) (w' : World C),
     Consumer.iterconsume self (Some 0) no_ack p w' =
     Consumer.iterconsume self None no_ack p w')
  /\ (forall k : nat,
        advance (S k) (Consumer.iterconsume self (Some 0) no_ack) Fresh w =
          (Ok (map Yield (fst (drain_n (S k) (conn w))), Suspended k),
           mkWorld (snd (drain_n (S k) (conn w))) (broker w)
                   (trace w ++ EConsume no_ack :: repeat EDrainEvents (S k))))
  /\ (forall fuel : nat,
        fst (collect fuel (Consumer.iterconsume self (Some 0) no_ack) Fresh w) = Ok None).
Proof.
  split; [|split].
  - intros p w'. reflexivity.
  - intros k. apply unbounded_from_fresh. reflexivity.
  - intros fuel. apply unbounded_never_ends; [reflexivity|discriminate].
Qed.

(** ** The fetch loop *)

Section FetchLoop.

Context {C : Type}.
Variable self : Consumer.t.
Variable q : Queue.
Variable qs : list Queue.
Hypothesis bound : Consumer.queues self = q :: qs.

Lemma fetch_some (no_ack : option bool) (callbacks : bool) (w : World C) m ms :
  broker w !! q_name q = Some (m :: ms) ->
  Consumer.fetch self no_ack callbacks w =
    (Ok (Some m),
     mkWorld (conn w) (<[q_name q := ms]> (broker w))
       (trace w
          ++ EGet (q_name q) (override_if_not_None no_ack (Consumer.no_ack self))
          :: (if callbacks then [EReceive (payload m) m] else []))).
Proof.
  intros Hq. unfold Consumer.fetch. rewrite bound.
  unfold first_queue. cbn [lookup list_lookup].
  unfold bind at 1. unfold ret at 1.
  unfold bind at 1. unfold Queue_get at 1. rewrite Hq.
  assert (Hna : match no_ack with
                | Some b => b
                | None => Consumer.no_ack self
                end = override_if_not_None no_ack (Consumer.no_ack self))
    by now destruct no_ack.
  rewrite Hna.
  destruct callbacks; unfold bind, messaging.receive, log, ret; cbn [conn broker trace].
  - now rewrite <- app_assoc.
  - reflexivity.
Qed.

Lemma fetch_none (no_ack : option bool) (callbacks : bool) (w : World C) :
  available w q = [] ->
  Consumer.fetch self no_ack callbacks w =
    (Ok None,
     mkWorld (conn w) (broker w)
       (trace w ++ [EGet (q_name q) (override_if_not_None no_ack (Consumer.no_ack self))])).
Proof.
  unfold available. intros Hq. unfold Consumer.fetch. rewrite bound.
  unfold first_queue. cbn [lookup list_lookup].
  unfold bind at 1. unfold ret at 1.
  unfold bind at 1. unfold Queue_get at 1.
  assert (Hna : match no_ack with
                | Some b => b
                | None => Consumer.no_ack self
                end = override_if_not_None no_ack (Consumer.no_ack self))
    by now destruct no_ack.
  rewrite Hna.
  destruct (broker w !! q_name q) as [[|m ms]|] eqn:E; simpl in Hq;
    [reflexivity | discriminate | reflexivity].
Qed.

(** With [k] items left below the limit, the rest of the sequence is
    the first [k] waiting messages; one more message is fetched when
    more than [k] wait. *)
Lemma iterqueue_from (n : nat) (msgs : list Message) :
  forall (k i fuel : nat) (p : pc) (w : World C),
    (0 < n)%nat -> (i + k = n)%nat -> next_iteration p = Some i ->
    broker w !! q_name q = Some msgs ->
    (Nat.min k (length msgs) < fuel)%nat ->
    collect fuel (Consumer.iterqueue self (Some (Z.of_nat n)) false) p w =
      (Ok (Some (map Some (take k msgs))),
       mkWorld (conn w) (<[q_name q := drop (S k) msgs]> (broker w))
               (trace w ++ gets self q (S (Nat.min k (length msgs))))).
Proof.
  induction msgs as [|m ms IH]; intros k i fuel p w Hn Hk Hp Hq Hfuel.
  - destruct fuel as [|fuel]; [lia|].
    cbn [collect]. unfold bind at 1. unfold Consumer.iterqueue at 1.
    rewrite Hp. unfold bind at 1.
    rewrite fetch_none by (unfold available; now rewrite Hq).
    cbn [is_None negb andb orb]. unfold ret.
    rewrite take_nil, drop_nil, insert_id by exact Hq.
    rewrite Nat.min_0_r. reflexivity.
  - destruct fuel as [|fuel]; [simpl in Hfuel; lia|].
    cbn [collect]. unfold bind at 1. unfold Consumer.iterqueue at 1.
    rewrite Hp. unfold bind at 1.
    rewrite (fetch_some None false w m ms Hq).
    cbn [is_None negb andb orb override_if_not_None].
    destruct k as [|k].
    + rewrite past_limit_reached by lia. unfold ret. reflexivity.
    + rewrite past_limit_not_reached by lia. unfold ret at 1.
      unfold bind at 1.
      rewrite (IH k (S i) fuel (Suspended i)); cbn [conn broker trace length];
        [ | lia | lia | reflexivity | apply lookup_insert_eq
          | cbn [length] in Hfuel; lia ].
      unfold ret. cbn [option_map take drop map].
      rewrite insert_insert_eq. rewrite <- app_assoc.
      replace (Nat.min (S k) (S (length ms))) with (S (Nat.min k (length ms))) by lia.
      reflexivity.
Qed.

End FetchLoop.

(** C2. For [N >= 1], [iterqueue(limit=N, infinite=False)] run to its
    end yields the first [N] waiting messages of the bound queue, or all
    of them when fewer than [N] wait: it yields [min(N, available)]
    items, so at most that many, ending at the first empty fetch or once
    [N] items were produced. *)
Theorem iterqueue_yields_at_most_min
    {C : Type} (self : Consumer.t) (q : Queue) (qs : list Queue)
    (N : Z) (fuel : nat) (w : World C) :
  Consumer.queues self = q :: qs ->
  1 <= N ->
  (Nat.min (Z.to_nat N) (length (available w q)) < fuel)%nat ->
  exists (yielded : list (option Message)) (w' : World C),
    collect fuel (Consumer.iterqueue self (Some N) false) Fresh w = (Ok (Some yielded), w')
    /\ yielded = map Some (take (Z.to_nat N) (available w q))
    /\ length yielded = Nat.min (Z.to_nat N) (length (available w q))
    /\ (length yielded <= Nat.min (Z.to_nat N) (length (available w q)))%nat.
Proof.
  intros Hbound HN Hfuel.
  assert (Hlen : length (map Some (take (Z.to_nat N) (available w q)))
                 = Nat.min (Z.to_nat N) (length (available w q)))
    by (rewrite length_map; apply length_take).
  remember (Z.to_nat N) as n eqn:En.
  assert (HNn : N = Z.of_nat n) by lia. subst N.
  unfold available in *.
  destruct (broker w !! q_name q) as [msgs|] eqn:Hq; cbn [default] in *.
  - eexists _, _. split; [|split; [reflexivity|split; [exact Hlen|lia]]].
    apply (iterqueue_from self q qs Hbound n msgs n 0 fuel Fresh w);
      [lia | lia | reflexivity | exact Hq | exact Hfuel].
  - destruct fuel as [|fuel]; [lia|].
    eexists _, _. split; [|split; [reflexivity|split; [exact Hlen|lia]]].
    cbn [collect]. unfold bind at 1. unfold Consumer.iterqueue at 1.
    cbn [next_iteration]. unfold bind at 1.
    rewrite (fetch_none self q qs Hbound)
      by (unfold available; now rewrite Hq).
    cbn [is_None negb andb orb]. unfold ret.
    rewrite take_nil. reflexivity.
Qed.

(** C10. For [N >= 1] and at least [N + 1] waiting messages,
    [iterqueue(limit=N)] run to its end makes [N + 1] fetches: the first
    [N] messages are yielded, and the fetch of the terminating step takes
    message [N + 1] off the queue, which is not yielded and reaches no
    callback. *)
Theorem iterqueue_fetches_one_past_limit
    {C : Type} (self : Consumer.t) (q : Queue) (qs : list Queue)
    (N : Z) (fuel : nat) (w : World C) :
  Consumer.queues self = q :: qs ->
  1 <= N ->
  (Z.to_nat N + 1 <= length (available w q))%nat ->
  (Z.to_nat N < fuel)%nat ->
  exists (m : Message) (w' : World C),
    available w q
      = take (Z.to_nat N) (available w q) ++ m :: drop (S (Z.to_nat N)) (available w q)
    /\ collect fuel (Consumer.iterqueue self (Some N) false) Fresh w
      = (Ok (Some (map Some (take (Z.to_nat N) (available w q)))), w')
    /\ trace w' = trace w ++ gets self q (S (Z.to_nat N))
    /\ calls is_get (gets self q (S (Z.to_nat N))) = S (Z.to_nat N)
    /\ calls is_receive (gets self q (S (Z.to_nat N))) = 0%nat
    /\ available w' q = drop (S (Z.to_nat N)) (available w q).
Proof.
  intros Hbound HN Hlen Hfuel.
  remember (Z.to_nat N) as n eqn:En.
  assert (HNn : N = Z.of_nat n) by lia. subst N.
  unfold available in *.
  destruct (broker w !! q_name q) as [msgs|] eqn:Hq; cbn [default] in *;
    [|simpl in Hlen; lia].
  unfold id in *.
  assert (Hin : (n < length msgs)%nat) by (unfold id in Hlen; lia).
  destruct (lookup_lt_is_Some_2 msgs n Hin) as [m Hm].
  exists m. eexists. split; [|split; [|split; [|split; [|split]]]].
  - symmetry. now apply take_drop_middle.
  - apply (iterqueue_from self q qs Hbound n msgs n 0 fuel Fresh w);
      [lia | lia | reflexivity | exact Hq | lia].
  - cbn [trace]. now replace (Nat.min n (length msgs)) with n by lia.
  - unfold gets. apply calls_repeat_same. reflexivity.
  - unfold gets. apply calls_repeat_other. reflexivity.
  - cbn [broker]. now rewrite lookup_insert_eq.
Qed.

Lemma iterqueue_yields_at_most_min_witness :
  exists (yielded : list (option Message)) (w' : World nat),
    collect 4 (Consumer.iterqueue (orders_consumer false) (Some 2) false) Fresh three_orders
      = (Ok (Some yielded), w')
    /\ yielded = map Some (take (Z.to_nat 2) (available three_orders orders_queue))
    /\ length yielded = Nat.min (Z.to_nat 2) (length (available three_orders orders_queue))
    /\ (length yielded <= Nat.min (Z.to_nat 2) (length (available three_orders orders_queue)))%nat.
Proof.
  apply (iterqueue_yields_at_most_min (orders_consumer false) orders_queue [] 2 4 three_orders).
  - reflexivity.
  - lia.
  - vm_compute. lia.
Defined.

Lemma iterqueue_fetches_one_past_limit_witness :
  exists (m : Message) (w' : World nat),
    available three_orders orders_queue
      = take (Z.to_nat 2) (available three_orders orders_queue)
          ++ m :: drop (S (Z.to_nat 2)) (available three_orders orders_queue)
    /\ collect 4 (Consumer.iterqueue (orders_consumer false) (Some 2) false) Fresh three_orders
      = (Ok (Some (map Some (take (Z.to_nat 2) (available three_orders orders_queue)))), w')
    /\ trace w' = trace three_orders ++ gets (orders_consumer false) orders_queue (S (Z.to_nat 2))
    /\ calls is_get (gets (orders_consumer false) orders_queue (S (Z.to_nat 2))) = S (Z.to_nat 2)
    /\ calls is_receive (gets (orders_consumer false) orders_queue (S (Z.to_nat 2))) = 0%nat
    /\ available w' orders_queue = drop (S (Z.to_nat 2)) (available three_orders orders_queue).
Proof.
  apply (iterqueue_fetches_one_past_limit
           (orders_consumer false) orders_queue [] 2 4 three_orders).
  - reflexivity.
  - lia.
  - vm_compute. lia.
  - vm_compute. lia.
Defined.

(** C3. [fetch(no_ack, enable_callbacks)] resolves a [None] policy to
    the policy of the instance, makes exactly one [get] on the first
    bound queue under the resolved policy, and returns the message that
    [get] retrieved, or [None] when nothing waits.  A retrieved message
    goes through [receive(message.payload, message)] when
    [enable_callbacks] is set; without a message no callback is called. *)
Theorem fetch_one_get_then_callbacks
    {C : Type} (self : Consumer.t) (q : Queue) (qs : list Queue)
    (no_ack : option bool) (enable_callbacks : bool) (w : World C) :
  Consumer.queues self = q :: qs ->
  exists (resolved : bool) (added : list Event) (w' : World C),
    Consumer.fetch self no_ack enable_callbacks w = (Ok (head (available w q)), w')
    /\ trace w' = trace w ++ added
    /\ (no_ack = None -> resolved = Consumer.no_ack self)
    /\ (forall b, no_ack = Some b -> resolved = b)
    /\ List.filter is_get added = [EGet (q_name q) resolved]
    /\ calls is_get added = 1%nat
    /\ match head (available w q) with
       | Some m =>
           List.filter is_receive added =
             if enable_callbacks then [EReceive (payload m) m] else []
       | None => List.filter is_receive added = []
       end.
Proof.
  intros Hbound.
  exists (override_if_not_None no_ack (Consumer.no_ack self)).
  destruct (available w q) as [|m ms] eqn:Ha.
  - eexists _, _. split; [cbn [head]; now apply (fetch_none self q qs Hbound)|].
    cbn [trace]. split; [reflexivity|].
    repeat split; try reflexivity.
    + now intros ->.
    + now intros b ->.
  - assert (Hq : broker w !! q_name q = Some (m :: ms)).
    { unfold available in Ha. destruct (broker w !! q_name q) as [l|]; simpl in Ha.
      - now subst l.
      - discriminate. }
    eexists _, _.
    split; [cbn [head]; exact (fetch_some self q qs Hbound no_ack enable_callbacks w m ms Hq)|].
    cbn [trace]. split; [reflexivity|].
    repeat split; try (destruct enable_callbacks; reflexivity).
    + now intros ->.
    + now intros b ->.
Qed.

Lemma fetch_one_get_then_callbacks_witness :
  exists (resolved : bool) (added : list Event) (w' : World nat),
    Consumer.fetch (orders_consumer true) None true three_orders
      = (Ok (head (available three_orders orders_queue)), w')
    /\ trace w' = trace three_orders ++ added
    /\ (@None bool = None -> resolved = Consumer.no_ack (orders_consumer true))
    /\ (forall b, None = Some b -> resolved = b)
    /\ List.filter is_get added = [EGet (q_name orders_queue) resolved]
    /\ calls is_get added = 1%nat
    /\ match head (available three_orders orders_queue) with
       | Some m => List.filter is_receive added = if true then [EReceive (payload m) m] else []
       | None => List.filter is_receive added = []
       end.
Proof.
  apply (fetch_one_get_then_callbacks (orders_consumer true) orders_queue [] None true
                                      three_orders).
  reflexivity.
Defined.

(** C4. [Publisher.close()] on a publisher whose channel was supplied by
    the caller makes no [close] call on any channel; on a publisher that
    owns a channel it closes that channel exactly once, before it
    delegates to the parent [close]; in every case [_closed] is true
    afterwards.  The constructor marks a supplied channel as provided and
    a channel it obtained from the connection as owned. *)
Theorem publisher_close_respects_ownership
    {C V : Type} `{Connection C V} (self : Publisher.t) (w : World C) :
  (exists (self' : Publisher.t) (added : list Event),
     Publisher.close self w
       = (Ok self', mkWorld (conn w) (broker w) (trace w ++ added))
     /\ Publisher._closed self' = true
     /\ Publisher.channel self' = Publisher.channel self
     /\ (Publisher._provided_channel self = true ->
         added = [EProducerClose] /\ calls is_channel_close added = 0%nat)
     /\ (Publisher._provided_channel self = false ->
         forall ch, Publisher.channel self = Some ch ->
           added = [EChannelClose ch; EProducerClose]
           /\ calls is_channel_close added = 1%nat)
     /\ (Publisher.channel self = None -> added = [EProducerClose]))
  /\ (forall k exchange routing_key exchange_type durable auto_delete ch,
        exists p,
          Publisher.__init__ k exchange routing_key exchange_type durable auto_delete
                             (Some ch) w = (Ok p, w)
          /\ Publisher._provided_channel p = true
          /\ Publisher.channel p = Some ch)
  /\ (forall k exchange routing_key exchange_type durable auto_delete,
        exists p w',
          Publisher.__init__ k exchange routing_key exchange_type durable auto_delete
                             None w = (Ok p, w')
          /\ Publisher._provided_channel p = false
          /\ Publisher.channel p = Some (fst (open_channel (conn w)))).
Proof.
  split; [|split].
  - unfold Publisher.close.
    destruct self as [e et rk d ad [ch|] [|] cl]; cbn [Publisher.channel
      Publisher._provided_channel Publisher.exchange Publisher.exchange_type
      Publisher.routing_key Publisher.durable Publisher.auto_delete negb];
      unfold bind, messaging.Producer_close, log, ret; cbn [conn broker trace].
    + exists (Publisher.mk e et rk d ad (Some ch) true true), [EProducerClose].
      do 3 (split; [reflexivity|]).
      split; [intros _; split; reflexivity|].
      split; [intros Hp; discriminate Hp|intros Hc; discriminate Hc].
    + exists (Publisher.mk e et rk d ad (Some ch) false true),
        [EChannelClose ch; EProducerClose].
      rewrite <- app_assoc.
      do 3 (split; [reflexivity|]).
      split; [intros Hp; discriminate Hp|].
      split; [intros _ ch' Hch; injection Hch as <-; split; reflexivity
             |intros Hc; discriminate Hc].
    + exists (Publisher.mk e et rk d ad None true true), [EProducerClose].
      do 3 (split; [reflexivity|]).
      split; [intros _; split; reflexivity|].
      split; [intros Hp; discriminate Hp|reflexivity].
    + exists (Publisher.mk e et rk d ad None false true), [EProducerClose].
      do 3 (split; [reflexivity|]).
      split; [intros Hp; discriminate Hp|].
      split; [intros _ ch' Hch; discriminate Hch|reflexivity].
  - intros. eexists. unfold Publisher.__init__, bind, messaging.Producer_init, ret.
    repeat split.
  - intros. unfold Publisher.__init__, bind, messaging.Producer_init, ret.
    unfold bind, connection_channel, ret.
    destruct (open_channel (conn w)) as [ch c'].
    eexists _, _. repeat split.
Qed.

(** C5. [discard_all(filterfunc)] with a filter raises
    [NotImplementedError] at the call and leaves the world as it was: no
    queue is purged and no call is made.  [process_next()] raises
    [NotImplementedError] at the call, with a message that points to
    [fetch(enable_callbacks=True)]. *)
Theorem unsupported_operations_raise
    {C F A : Type} (self : Consumer.t) (filterfunc : F) (w : World C) :
  Consumer.discard_all self (Some filterfunc) w
    = (Raise (NotImplementedError "discard_all does not implement filters"), w)
  /\ calls is_purge (calls_of (Consumer.discard_all self (Some filterfunc) w))
     = calls is_purge (trace w)
  /\ broker (snd (Consumer.discard_all self (Some filterfunc) w)) = broker w
  /\ @Consumer.process_next C A self w
     = (Raise (NotImplementedError "Use fetch(enable_callbacks=True)"), w).
Proof. repeat split. Qed.

(** ** Defaulting in the constructors *)

Lemma override_given_or_default {A} (arg : option A) (default : A) :
  given_or_default arg default (override_if_not_None arg default).
Proof.
  split.
  - now intros a ->.
  - now intros ->.
Qed.

Lemma str_truthy_nonempty (s : string) : s <> EmptyString -> str_truthy s = true.
Proof. destruct s; [congruence|reflexivity]. Qed.

Lemma py_or_nonempty_or_default (arg : option string) (default : string) :
  nonempty_or_default arg default (py_or str_truthy arg default).
Proof.
  split.
  - intros s -> Hs. unfold py_or. now rewrite str_truthy_nonempty.
  - intros [-> | ->]; reflexivity.
Qed.

(** For a string argument that is not the empty string the two idioms
    agree. *)
Lemma py_or_agrees_off_empty (arg : option string) (default : string) :
  arg <> Some EmptyString ->
  py_or str_truthy arg default = override_if_not_None arg default.
Proof.
  destruct arg as [[|a s]|]; [congruence|reflexivity|reflexivity].
Qed.

(** C6, as stated, fails: [exchange_type=""] is an argument that is not
    [None], and both constructors keep the class-level ["direct"]. *)
Lemma empty_exchange_type_keeps_default :
  (exists p w',
     Publisher.__init__ Publisher.cls None None (Some EmptyString) None None None idle
       = (Ok p, w')
     /\ Publisher.exchange_type p = "direct"%string
     /\ ~ given_or_default (Some EmptyString)
          (Publisher.cls_exchange_type Publisher.cls) (Publisher.exchange_type p))
  /\ (exists c w',
        Consumer.__init__ Consumer.cls None None None (Some EmptyString) None None None false
                          idle = (Ok c, w')
        /\ Consumer.exchange_type c = "direct"%string
        /\ ~ given_or_default (Some EmptyString)
             (Consumer.cls_exchange_type Consumer.cls) (Consumer.exchange_type c)).
Proof.
  split; eexists _, _; (split; [reflexivity|]); (split; [reflexivity|]);
    intros [Hgiven _]; specialize (Hgiven EmptyString eq_refl); discriminate Hgiven.
Qed.

(** C6, amended. In both constructors the boolean fields ([durable],
    [auto_delete], and [exclusive] for [Consumer]) take the argument
    whenever it is not [None] and the class-level default otherwise; the
    string fields ([exchange], [exchange_type], [routing_key], and
    [queue] for [Consumer]) take the argument whenever it is a non-empty
    string, and the class-level default when it is [None] or the empty
    string.  A descriptor passed as the [exchange] of a [Publisher] is
    kept as it is. *)
Theorem constructors_resolve_fields
    {C V : Type} `{Connection C V} (w : World C) :
  (forall k exchange routing_key exchange_type durable auto_delete channel,
     exists p w',
       Publisher.__init__ k exchange routing_key exchange_type durable auto_delete
                          channel w = (Ok p, w')
       /\ given_or_default durable (Publisher.cls_durable k) (Publisher.durable p)
       /\ given_or_default auto_delete (Publisher.cls_auto_delete k)
                           (Publisher.auto_delete p)
       /\ nonempty_or_default exchange_type (Publisher.cls_exchange_type k)
                              (Publisher.exchange_type p)
       /\ nonempty_or_default routing_key (Publisher.cls_routing_key k)
                              (Publisher.routing_key p)
       /\ (forall e, exchange = Some (ExDescriptor e) -> Publisher.exchange p = e)
       /\ (forall s, exchange = Some (ExName s) -> s <> EmptyString ->
             Publisher.exchange p
               = mkExchange s (Publisher.exchange_type p) (Publisher.routing_key p)
                            (Publisher.auto_delete p) (Publisher.durable p))
       /\ (exchange = None \/ exchange = Some (ExName EmptyString) ->
           forall d, Publisher.cls_exchange k = ExName d ->
             Publisher.exchange p
               = mkExchange d (Publisher.exchange_type p) (Publisher.routing_key p)
                            (Publisher.auto_delete p) (Publisher.durable p)))
  /\ (forall k queue exchange routing_key exchange_type durable exclusive auto_delete
             policy,
        exists c w',
          Consumer.__init__ k queue exchange routing_key exchange_type durable exclusive
                            auto_delete policy w = (Ok c, w')
          /\ given_or_default durable (Consumer.cls_durable k) (Consumer.durable c)
          /\ given_or_default exclusive (Consumer.cls_exclusive k) (Consumer.exclusive c)
          /\ given_or_default auto_delete (Consumer.cls_auto_delete k)
                              (Consumer.auto_delete c)
          /\ nonempty_or_default queue (Consumer.cls_queue k) (Consumer.queue c)
          /\ nonempty_or_default exchange (Consumer.cls_exchange k) (Consumer.exchange c)
          /\ nonempty_or_default exchange_type (Consumer.cls_exchange_type k)
                                 (Consumer.exchange_type c)
          /\ nonempty_or_default routing_key (Consumer.cls_routing_key k)
                                 (Consumer.routing_key c)
          /\ Consumer.queues c
             = [mkQueue (Consumer.queue c)
                        (mkExchange (Consumer.exchange c) (Consumer.exchange_type c)
                                    (Consumer.routing_key c) (Consumer.auto_delete c)
                                    (Consumer.durable c))
                        (Consumer.routing_key c) (Consumer.durable c)
                        (Consumer.exclusive c) (Consumer.auto_delete c)]).
Proof.
  split.
  - intros k exchange routing_key exchange_type durable auto_delete channel.
    unfold Publisher.__init__, bind.
    destruct (messaging.Producer_init channel w) as [[ch|e] w'] eqn:Hinit.
    2:{ exfalso. unfold messaging.Producer_init in Hinit.
        destruct channel; unfold ret, bind, connection_channel in Hinit.
        - discriminate.
        - destruct (open_channel (conn w)); discriminate. }
    eexists _, _. split; [reflexivity|].
    cbn [Publisher.durable Publisher.auto_delete Publisher.exchange_type
         Publisher.routing_key Publisher.exchange].
    split; [apply override_given_or_default|].
    split; [apply override_given_or_default|].
    split; [apply py_or_nonempty_or_default|].
    split; [apply py_or_nonempty_or_default|].
    split; [now intros e0 ->|].
    split.
    + intros s -> Hs. unfold py_or. cbn [exchange_truthy].
      now rewrite str_truthy_nonempty.
    + intros [-> | ->] d Hd; unfold py_or; cbn [exchange_truthy str_truthy];
        now rewrite Hd.
  - intros k queue exchange routing_key exchange_type durable exclusive auto_delete policy.
    unfold Consumer.__init__, bind, connection_channel, messaging.Consumer_init, ret.
    destruct (open_channel (conn w)) as [ch c'].
    eexists _, _. split; [reflexivity|].
    cbn [Consumer.durable Consumer.exclusive Consumer.auto_delete Consumer.queue
         Consumer.exchange Consumer.exchange_type Consumer.routing_key].
    repeat (split; [first [apply override_given_or_default
                          |apply py_or_nonempty_or_default]|]).
    reflexivity.
Qed.

(** ** The policy handed to [consume] *)

(** C7, as stated, fails: with [no_ack] left at [None] the registration
    is [consume(no_ack=None)], whatever the policy of the instance. *)
Lemma iterconsume_hands_None_to_consume :
  calls_of (Consumer.iterconsume (orders_consumer true) (Some 1) None Fresh idle)
    = [EConsume None; EDrainEvents]
  /\ List.filter is_consume
       (calls_of (Consumer.iterconsume (orders_consumer true) (Some 1) None Fresh idle))
     <> [EConsume (Some (Consumer.no_ack (orders_consumer true)))]
  /\ List.filter is_consume
       (calls_of (Consumer.iterconsume (orders_consumer false) (Some 1) None Fresh idle))
     <> [EConsume (Some (Consumer.no_ack (orders_consumer false)))].
Proof. repeat split; discriminate. Qed.

(** C7, amended. [Consumer.iterconsume(limit, no_ack)] hands [no_ack] to
    the [consume] call as it received it: the first [next] makes exactly
    one [consume] call, whose argument is the [no_ack] of the caller, so
    an unspecified [no_ack] reaches [consume] as [None]; the policy of
    the instance is not read on the way. *)
Theorem iterconsume_hands_no_ack_unchanged
    {C V : Type} `{Connection C V}
    (self : Consumer.t) (limit : option Z) (no_ack : option bool) (w : World C) :
  List.filter is_consume
    (calls_of (Consumer.iterconsume self limit no_ack Fresh w))
  = List.filter is_consume (trace w) ++ [EConsume no_ack].
Proof.
  unfold calls_of, Consumer.iterconsume, _iterconsume.
  cbn [next_iteration]. unfold bind at 1. unfold messaging.consume, log.
  destruct (past_limit limit 0).
  - unfold ret. cbn [snd trace]. now rewrite List.filter_app.
  - unfold bind, connection_drain_events. cbn [conn broker trace].
    destruct (drain_events (conn w)) as [v c'].
    unfold ret. cbn [snd trace].
    now rewrite !List.filter_app, app_nil_r.
Qed.

(** ** The queue collection of a [ConsumerSet] *)

Lemma fold_left_extend {A B} (f : A -> list B) (l : list A) (acc : list B) :
  fold_left (fun qs a => qs ++ f a) l acc = acc ++ concat (map f l).
Proof.
  revert acc. induction l as [|a l IH]; intros acc; simpl.
  - now rewrite app_nil_r.
  - now rewrite IH, app_assoc.
Qed.

Lemma fold_left_append {A B} (f : A -> B) (l : list A) (acc : list B) :
  fold_left (fun qs a => qs ++ [f a]) l acc = acc ++ map f l.
Proof.
  revert acc. induction l as [|a l IH]; intros acc; simpl.
  - now rewrite app_nil_r.
  - rewrite IH, <- app_assoc. reflexivity.
Qed.

(** C8. The queue collection of a [ConsumerSet] built from [consumers]
    and [from_dict] is the queues of each consumer, in the order of the
    consumers, followed by one queue per entry of [from_dict], in the
    order of its entries; nothing is dropped or merged.  Afterwards
    [add_consumer_from_dict(name, **options)] makes one [add_queue] call
    and leaves the collection extended at its end by the queue of that
    entry. *)
Theorem consumerset_queues_in_order
    {Options C V : Type} `{Connection C V}
    (entry_to_queue : string -> Options -> Queue)
    (from_dict : option (list (string * Options)))
    (consumers : option (list Consumer.t)) (policy : bool) (w : World C) :
  exists (s : ConsumerSet.t) (w' : World C),
    ConsumerSet.__init__ entry_to_queue from_dict consumers policy w = (Ok s, w')
    /\ ConsumerSet.queues s
       = concat (map Consumer.queues (default [] consumers))
         ++ map (fun item => entry_to_queue (fst item) (snd item)) (default [] from_dict)
    /\ length (ConsumerSet.queues s)
       = (length (concat (map Consumer.queues (default [] consumers)))
          + length (default [] from_dict))%nat
    /\ forall (name : string) (options : Options) (w1 : World C),
         exists s2 : ConsumerSet.t,
           ConsumerSet.add_consumer_from_dict entry_to_queue s name options w1
             = (Ok s2,
                mkWorld (conn w1) (broker w1)
                        (trace w1 ++ [EAddQueue (q_name (entry_to_queue name options))]))
           /\ ConsumerSet.queues s2
              = ConsumerSet.queues s ++ [entry_to_queue name options].
Proof.
  unfold ConsumerSet.__init__, bind, connection_channel, messaging.Consumer_init, ret.
  destruct (open_channel (conn w)) as [ch c'].
  eexists _, _. split; [reflexivity|].
  assert (Hq : forall qs : list Queue,
            match from_dict with
            | Some ((_ :: _) as items) =>
                fold_left (fun qs item => qs ++ [entry_to_queue (fst item) (snd item)])
                          items qs
            | _ => qs
            end
            = qs ++ map (fun item => entry_to_queue (fst item) (snd item))
                        (default [] from_dict)).
  { intros qs. destruct from_dict as [[|item items]|]; cbn [default]; unfold id.
    - now rewrite app_nil_r.
    - exact (fold_left_append (fun item => entry_to_queue (fst item) (snd item))
                              (item :: items) qs).
    - now rewrite app_nil_r. }
  assert (Hc : match consumers with
               | Some ((_ :: _) as cs) =>
                   fold_left (fun qs consumer => qs ++ Consumer.queues consumer) cs []
               | _ => []
               end
               = concat (map Consumer.queues (default [] consumers))).
  { destruct consumers as [[|c cs]|]; cbn [default]; unfold id; try reflexivity.
    exact (fold_left_extend Consumer.queues (c :: cs) []). }
  assert (Hall : forall qs : list Queue,
            qs = match from_dict with
                 | Some ((_ :: _) as items) =>
                     fold_left
                       (fun qs item => qs ++ [entry_to_queue (fst item) (snd item)])
                       items
                       match consumers with
                       | Some ((_ :: _) as cs) =>
                           fold_left (fun qs consumer => qs ++ Consumer.queues consumer)
                                     cs []
                       | _ => []
                       end
                 | _ =>
                     match consumers with
                     | Some ((_ :: _) as cs) =>
                         fold_left (fun qs consumer => qs ++ Consumer.queues consumer)
                                   cs []
                     | _ => []
                     end
                 end ->
            ConsumerSet.queues (ConsumerSet.mk (messaging.mkConsumer ch qs policy) ch)
            = concat (map Consumer.queues (default [] consumers))
              ++ map (fun item => entry_to_queue (fst item) (snd item))
                     (default [] from_dict)).
  { intros qs ->. unfold ConsumerSet.queues. cbn [ConsumerSet.base messaging.queues].
    rewrite <- Hc, <- Hq.
    destruct from_dict as [[|item items]|]; reflexivity. }
  specialize (Hall _ eq_refl).
  split; [exact Hall|]. split.
  - rewrite Hall, length_app, length_map. unfold id. reflexivity.
  - intros name options w1.
    unfold ConsumerSet.add_consumer_from_dict, bind, messaging.add_queue, bind, log, ret.
    eexists. split; reflexivity.
Qed.

(** ** Worked examples *)

(** Two fetches on a queue that holds one message: the message, then
    nothing. *)
Example fetch_then_empty :
  outcome orders_queue
    ((Consumer.fetch (orders_consumer false) None false ;;
      Consumer.fetch (orders_consumer false) None false)
       (mkWorld 0%nat {[ "orders"%string := [mkMessage 10 1] ]} []))
  = (Ok None, [], [EGet "orders" false; EGet "orders" false]).
Proof. vm_compute. reflexivity. Qed.

(** [wait(limit=3)] returns the three drained values. *)
Example wait_three :
  outcome orders_queue (Consumer.wait 4 (orders_consumer false) (Some 3) idle)
  = (Ok (Some [0; 1; 2]), [],
     [EConsume None; EDrainEvents; EDrainEvents; EDrainEvents]).
Proof. vm_compute. reflexivity. Qed.

(** A negative limit is truthy and already reached: the consumer is
    registered and nothing is drained. *)
Example negative_limit_ends_at_once :
  outcome orders_queue
    (collect 2 (Consumer.iterconsume (orders_consumer false) (Some (-2)) None) Fresh idle)
  = (Ok (Some []), [], [EConsume None]).
Proof. vm_compute. reflexivity. Qed.

(** Iterating the consumer goes on past the empty queue and yields
    [None] from then on. *)
Example iter_past_empty_queue :
  outcome orders_queue
    (advance 4 (Consumer.__iter__ (orders_consumer true)) Fresh three_orders)
  = (Ok ([Yield (Some (mkMessage 10 1)); Yield (Some (mkMessage 20 2));
          Yield (Some (mkMessage 30 3)); Yield None],
         Suspended 3),
     [],
     [EGet "orders" true; EGet "orders" true; EGet "orders" true; EGet "orders" true]).
Proof. vm_compute. reflexivity. Qed.

(** Without a filter [discard_all] purges the bound queue. *)
Example discard_all_purges :
  outcome orders_queue
    (Consumer.discard_all (orders_consumer false) (@None (Message -> bool)) three_orders)
  = (Ok 3, [], [EPurge "orders"]).
Proof. vm_compute. reflexivity. Qed.

(** With no bound queue [fetch] fails on [queues[0]]. *)
Example fetch_without_queue :
  outcome orders_queue
    (Consumer.fetch
       (Consumer.mk (messaging.mkConsumer 0%nat [] false) 0%nat "" "" "" "direct"
                    true false false false)
       None true three_orders)
  = (Raise IndexError, [mkMessage 10 1; mkMessage 20 2; mkMessage 30 3], []).
Proof. vm_compute. reflexivity. Qed.

(** ** One call of [next] on the drain loop *)

Section DrainStep.

Context {C V : Type} `{Connection C V}.
Variable consumer : messaging.Consumer.
Variable no_ack : option bool.
Variable limit : option Z.

Lemma iterconsume_next_fresh (w : World C) :
  _iterconsume consumer no_ack limit Fresh w =
    if past_limit limit 0
    then (Ok (StopIteration, Finished), registered no_ack w)
    else (Ok (Yield (fst (drain_events (conn w))), Suspended 0),
          drained (registered no_ack w)).
Proof.
  unfold _iterconsume. cbn [next_iteration]. unfold bind at 1.
  unfold messaging.consume, log, registered, drained.
  destruct (past_limit limit 0); [reflexivity|].
  unfold bind, connection_drain_events, ret. cbn [conn broker trace].
  now destruct (drain_events (conn w)).
Qed.

Lemma iterconsume_next_suspended (j : nat) (w : World C) :
  _iterconsume consumer no_ack limit (Suspended j) w =
    if past_limit limit (S j)
    then (Ok (StopIteration, Finished), w)
    else (Ok (Yield (fst (drain_events (conn w))), Suspended (S j)), drained w).
Proof.
  unfold _iterconsume. cbn [next_iteration]. unfold bind at 1. unfold ret at 1.
  unfold drained.
  destruct (past_limit limit (S j)); [reflexivity|].
  unfold bind, connection_drain_events, ret.
  now destruct (drain_events (conn w)).
Qed.

Lemma iterconsume_next_finished (w : World C) :
  _iterconsume consumer no_ack limit Finished w = (Ok (StopIteration, Finished), w).
Proof. reflexivity. Qed.

(** After the first call, no call of [next] registers the consumer. *)
Lemma started_never_registers (k : nat) :
  forall (p : pc) (w : World C),
    p <> Fresh ->
    List.filter is_consume (calls_of (advance k (_iterconsume consumer no_ack limit) p w))
    = List.filter is_consume (trace w).
Proof.
  induction k as [|k IH]; intros p w Hp; [reflexivity|].
  cbn [advance]. unfold bind at 1.
  destruct p as [|j|]; [congruence| |].
  - rewrite iterconsume_next_suspended.
    destruct (past_limit limit (S j)); cbn [snd fst].
    + unfold bind at 1.
      specialize (IH Finished w ltac:(discriminate)). unfold calls_of in *.
      destruct (advance k _ Finished w) as [[r|e] w']; exact IH.
    + unfold bind at 1.
      specialize (IH (Suspended (S j)) (drained w) ltac:(discriminate)).
      unfold calls_of in *.
      destruct (advance k _ (Suspended (S j)) (drained w)) as [[r|e] w'];
        unfold ret; cbn [snd] in *; rewrite IH; unfold drained; cbn [trace];
        now rewrite List.filter_app, app_nil_r.
  - rewrite iterconsume_next_finished. cbn [snd fst]. unfold bind at 1.
    specialize (IH Finished w ltac:(discriminate)). unfold calls_of in *.
    destruct (advance k _ Finished w) as [[r|e] w']; exact IH.
Qed.

(** On a finished sequence every call of [next] ends at once. *)
Lemma finished_stays_finished (k : nat) (w : World C) :
  advance k (_iterconsume consumer no_ack limit) Finished w
  = (Ok (repeat StopIteration k, Finished), w).
Proof.
  induction k as [|k IH]; [reflexivity|].
  cbn [advance]. unfold bind at 1. rewrite iterconsume_next_finished.
  cbn [snd fst]. unfold bind at 1. rewrite IH. reflexivity.
Qed.

End DrainStep.

(** X1. Whatever the limit, and however many times [next] is called,
    the consumer is registered exactly once, by the first call. *)
Theorem iterconsume_registers_once
    {C V : Type} `{Connection C V}
    (consumer : messaging.Consumer) (no_ack : option bool) (limit : option Z)
    (k : nat) (w : World C) :
  List.filter is_consume
    (calls_of (advance (S k) (_iterconsume consumer no_ack limit) Fresh w))
  = List.filter is_consume (trace w) ++ [EConsume no_ack].
Proof.
  cbn [advance]. unfold bind at 1. rewrite iterconsume_next_fresh.
  destruct (past_limit limit 0); cbn [snd fst]; unfold bind at 1.
  - pose proof (started_never_registers consumer no_ack limit k Finished
                  (registered no_ack w) ltac:(discriminate)) as Hk.
    unfold calls_of in *.
    destruct (advance k _ Finished (registered no_ack w)) as [[r|e] w'];
      unfold ret; cbn [snd] in *; rewrite Hk; unfold registered; cbn [trace];
      now rewrite List.filter_app.
  - pose proof (started_never_registers consumer no_ack limit k (Suspended 0)
                  (drained (registered no_ack w)) ltac:(discriminate)) as Hk.
    unfold calls_of in *.
    destruct (advance k _ (Suspended 0) (drained (registered no_ack w))) as [[r|e] w'];
      unfold ret; cbn [snd] in *; rewrite Hk; unfold registered, drained; cbn [trace];
      now rewrite !List.filter_app, app_nil_r.
Qed.

(** ** A bounded drain loop, call by call *)

Section BoundedDrain.

Context {C V : Type} `{Connection C V}.
Variable consumer : messaging.Consumer.
Variable no_ack : option bool.

Lemma drain_n_S_fst (m : nat) (c : C) :
  fst (drain_n (S m) c)
  = fst (drain_events c) :: fst (drain_n m (snd (drain_events c))).
Proof.
  cbn [drain_n]. destruct (drain_events c) as [v c']. cbn [fst snd].
  now destruct (drain_n m c').
Qed.

Lemma drain_n_S_snd (m : nat) (c : C) :
  snd (drain_n (S m) c) = snd (drain_n m (snd (drain_events c))).
Proof.
  cbn [drain_n]. destruct (drain_events c) as [v c']. cbn [fst snd].
  now destruct (drain_n m c').
Qed.

(** From the [yield] of iteration [j], with [r] iterations left below
    the limit, [k] calls of [next] drain [min k r] events and then find
    the sequence at its end. *)
Lemma bounded_from_suspended (n k : nat) :
  forall (j r : nat) (w : World C),
    (S j + r = n)%nat ->
    advance k (_iterconsume consumer no_ack (Some (Z.of_nat n))) (Suspended j) w =
      (Ok (map Yield (fst (drain_n (Nat.min k r) (conn w)))
             ++ repeat StopIteration (k - Nat.min k r),
           if (k <=? r)%nat then Suspended (j + k) else Finished),
       mkWorld (snd (drain_n (Nat.min k r) (conn w))) (broker w)
               (trace w ++ repeat EDrainEvents (Nat.min k r))).
Proof.
  induction k as [|k IH]; intros j r w Hn.
  - cbn. unfold ret. rewrite app_nil_r, world_eta.
    now replace (j + 0)%nat with j by lia.
  - cbn [advance]. unfold bind at 1. rewrite iterconsume_next_suspended.
    destruct r as [|r].
    + rewrite past_limit_reached by lia. cbn [fst snd]. unfold bind at 1.
      rewrite finished_stays_finished. unfold ret.
      rewrite Nat.min_0_r. cbn [drain_n fst snd map repeat app].
      replace (S k - 0)%nat with (S k) by lia. cbn [repeat Nat.leb].
      now rewrite app_nil_r, world_eta.
    + rewrite past_limit_not_reached by lia. cbn [fst snd]. unfold bind at 1.
      rewrite (IH (S j) r (drained w)) by lia. unfold ret, drained.
      cbn [conn broker trace fst snd].
      replace (Nat.min (S k) (S r)) with (S (Nat.min k r)) by lia.
      rewrite drain_n_S_fst, drain_n_S_snd. cbn [map app repeat].
      replace (S k - S (Nat.min k r))%nat with (k - Nat.min k r)%nat by lia.
      rewrite <- app_assoc. cbn [app Nat.leb].
      now replace (S j + k)%nat with (j + S k)%nat by lia.
Qed.

End BoundedDrain.

(** X2. Under a positive limit [N], any number of calls of [next]
    drains one event per call until [N] events were drained and none
    afterwards: of [k + 1] calls the first [min (k + 1) N] yield the
    drained values, in order, and the others find the sequence at its
    end without a call on the connection. *)
Theorem iterconsume_never_drains_past_limit
    {C V : Type} `{Connection C V}
    (consumer : messaging.Consumer) (no_ack : option bool) (N : Z)
    (k : nat) (w : World C) :
  0 < N ->
  exists m : nat,
    m = Nat.min (S k) (Z.to_nat N)
    /\ advance (S k) (_iterconsume consumer no_ack (Some N)) Fresh w =
         (Ok (map Yield (fst (drain_n m (conn w))) ++ repeat StopIteration (S k - m),
              if (S k <=? Z.to_nat N)%nat then Suspended k else Finished),
          mkWorld (snd (drain_n m (conn w))) (broker w)
                  (trace w ++ EConsume no_ack :: repeat EDrainEvents m))
    /\ calls is_drain (EConsume no_ack :: repeat EDrainEvents m) = m
    /\ (Z.of_nat m <= N).
Proof.
  intros HN. exists (Nat.min (S k) (Z.to_nat N)). split; [reflexivity|].
  remember (Z.to_nat N) as n eqn:En.
  assert (HNn : N = Z.of_nat n) by lia. subst N.
  destruct n as [|n]; [lia|].
  split; [|split; [|lia]].
  - cbn [advance]. unfold bind at 1. rewrite iterconsume_next_fresh.
    rewrite past_limit_not_reached by lia. cbn [fst snd]. unfold bind at 1.
    rewrite (bounded_from_suspended consumer no_ack (S n) k 0 n) by lia.
    unfold ret, drained, registered. cbn [conn broker trace fst snd].
    replace (Nat.min (S k) (S n)) with (S (Nat.min k n)) by lia.
    rewrite drain_n_S_fst, drain_n_S_snd. cbn [map app repeat].
    replace (S k - S (Nat.min k n))%nat with (k - Nat.min k n)%nat by lia.
    repeat rewrite <- app_assoc. cbn [app Nat.leb Nat.add]. reflexivity.
  - change (EConsume no_ack :: repeat EDrainEvents (Nat.min (S k) (S n)))
      with ([EConsume no_ack] ++ repeat EDrainEvents (Nat.min (S k) (S n))).
    rewrite calls_app, calls_repeat_same by reflexivity. reflexivity.
Qed.

Lemma iterconsume_never_drains_past_limit_witness :
  0 < 2 /\
  exists m : nat,
    m = Nat.min (S 4) (Z.to_nat 2)
    /\ advance (S 4) (_iterconsume (messaging.mkConsumer 0%nat [orders_queue] false)
                                   (Some true) (Some 2)) Fresh idle =
         (Ok (map Yield (fst (drain_n m (conn idle))) ++ repeat StopIteration (S 4 - m),
              if (S 4 <=? Z.to_nat 2)%nat then Suspended 4 else Finished),
          mkWorld (snd (drain_n m (conn idle))) (broker idle)
                  (trace idle ++ EConsume (Some true) :: repeat EDrainEvents m))
    /\ calls is_drain (EConsume (Some true) :: repeat EDrainEvents m) = m
    /\ (Z.of_nat m <= 2).
Proof.
  split; [lia|].
  apply (iterconsume_never_drains_past_limit
           (messaging.mkConsumer 0%nat [orders_queue] false) (Some true) 2 4 idle).
  lia.
Defined.

(** X3. A negative limit is a limit that is already reached: the first
    call of [next] registers the consumer and ends the sequence, and no
    event is drained. *)
Theorem iterconsume_negative_limit_registers_only
    {C V : Type} `{Connection C V}
    (consumer : messaging.Consumer) (no_ack : option bool) (N : Z)
    (fuel : nat) (w : World C) :
  N < 0 ->
  collect (S fuel) (_iterconsume consumer no_ack (Some N)) Fresh w
  = (Ok (Some []), mkWorld (conn w) (broker w) (trace w ++ [EConsume no_ack])).
Proof.
  intros HN. cbn [collect]. unfold bind at 1. rewrite iterconsume_next_fresh.
  assert (Hp : past_limit (Some N) 0 = true).
  { unfold past_limit, limit_truthy. apply andb_true_intro. split.
    - apply negb_true_iff, Z.eqb_neq. lia.
    - apply Z.geb_le. simpl. lia. }
  rewrite Hp. reflexivity.
Qed.

Lemma iterconsume_negative_limit_registers_only_witness :
  -3 < 0 /\
  collect (S 1) (_iterconsume (messaging.mkConsumer 0%nat [orders_queue] false)
                              None (Some (-3))) Fresh idle
  = (Ok (Some []), mkWorld (conn idle) (broker idle) (trace idle ++ [EConsume None])).
Proof.
  split; [lia|].
  apply (iterconsume_negative_limit_registers_only
           (messaging.mkConsumer 0%nat [orders_queue] false) None (-3) 1 idle).
  lia.
Defined.

(** ** [wait] *)

(** X4. [wait(limit=N)] with a positive [N] returns the list of the [N]
    values that [drain_events] returned, in order, after one
    registration with [no_ack=None] and exactly [N] drained events. *)
Theorem wait_returns_N_drained
    {C V : Type} `{Connection C V}
    (self : Consumer.t) (N : Z) (fuel : nat) (w : World C) :
  0 < N -> (Z.to_nat N < fuel)%nat ->
  Consumer.wait fuel self (Some N) w =
    (Ok (Some (fst (drain_n (Z.to_nat N) (conn w)))),
     mkWorld (snd (drain_n (Z.to_nat N) (conn w))) (broker w)
             (trace w ++ EConsume None :: repeat EDrainEvents (Z.to_nat N)))
  /\ length (fst (drain_n (Z.to_nat N) (conn w))) = Z.to_nat N.
Proof.
  intros HN Hfuel.
  remember (Z.to_nat N) as n eqn:En.
  assert (HNn : N = Z.of_nat n) by lia. subst N.
  destruct n as [|n]; [lia|]. destruct fuel as [|fuel]; [lia|].
  split.
  - unfold Consumer.wait, Consumer.iterconsume.
    cbn [collect]. unfold bind at 1. rewrite iterconsume_next_fresh.
    rewrite past_limit_not_reached by lia. unfold bind at 1.
    rewrite (iterconsume_from_suspended _ _ (S n) n 0 fuel) by lia.
    unfold ret, drained, registered. cbn [conn broker trace fst snd option_map].
    rewrite drain_n_S_fst, drain_n_S_snd.
    repeat rewrite <- app_assoc. reflexivity.
  - clear. generalize (conn w) as c. generalize (S n) as m.
    induction m as [|m IH]; intros c; [reflexivity|].
    rewrite drain_n_S_fst. cbn [length]. now rewrite IH.
Qed.

Lemma wait_returns_N_drained_witness :
  0 < 3 /\ (Z.to_nat 3 < 4)%nat /\
  Consumer.wait 4 (orders_consumer true) (Some 3) three_orders =
    (Ok (Some (fst (drain_n (Z.to_nat 3) (conn three_orders)))),
     mkWorld (snd (drain_n (Z.to_nat 3) (conn three_orders))) (broker three_orders)
             (trace three_orders ++ EConsume None :: repeat EDrainEvents (Z.to_nat 3)))
  /\ length (fst (drain_n (Z.to_nat 3) (conn three_orders))) = Z.to_nat 3.
Proof.
  split; [lia|]. split; [simpl; lia|].
  apply (wait_returns_N_drained (orders_consumer true) 3 4 three_orders);
    [lia | simpl; lia].
Defined.

(** X5. [wait()] without a limit, and [wait(0)], never return: the
    sequence they collect has no end, so on any fuel the collection runs
    out of it. *)
Theorem wait_without_limit_never_returns
    {C V : Type} `{Connection C V} (self : Consumer.t) (fuel : nat) (w : World C) :
  fst (Consumer.wait fuel self None w) = Ok None
  /\ fst (Consumer.wait fuel self (Some 0) w) = Ok None.
Proof.
  split; apply unbounded_never_ends; solve [reflexivity | discriminate].
Qed.

(** ** One call of [next] on the fetch loop *)

Section FetchStep.

Context {C : Type}.
Variable self : Consumer.t.
Variable q : Queue.
Variable qs : list Queue.
Hypothesis bound : Consumer.queues self = q :: qs.

Lemma available_cons (w : World C) m ms :
  available w q = m :: ms -> broker w !! q_name q = Some (m :: ms).
Proof.
  unfold available. destruct (broker w !! q_name q) as [l|]; simpl.
  - now intros ->.
  - discriminate.
Qed.

Lemma after_get_same (w : World C) :
  broker w !! q_name q = Some [] ->
  after_get self q [] w = mkWorld (conn w) (broker w) (trace w ++ gets self q 1).
Proof. intros Hq. unfold after_get. now rewrite insert_id. Qed.

Lemma iterqueue_next_message limit infinite (p : pc) (i : nat) (w : World C) m ms :
  next_iteration p = Some i ->
  broker w !! q_name q = Some (m :: ms) ->
  Consumer.iterqueue self limit infinite p w =
    if past_limit limit i
    then (Ok (StopIteration, Finished), after_get self q ms w)
    else (Ok (Yield (Some m), Suspended i), after_get self q ms w).
Proof.
  intros Hp Hq. unfold Consumer.iterqueue. rewrite Hp. unfold bind at 1.
  rewrite (fetch_some self q qs bound None false w m ms Hq).
  cbn [is_None andb orb override_if_not_None]. rewrite andb_false_r. cbn [orb].
  destruct (past_limit limit i); reflexivity.
Qed.

Lemma iterqueue_next_nothing limit infinite (p : pc) (i : nat) (w : World C) :
  next_iteration p = Some i ->
  available w q = [] ->
  Consumer.iterqueue self limit infinite p w =
    if negb infinite || past_limit limit i
    then (Ok (StopIteration, Finished),
          mkWorld (conn w) (broker w) (trace w ++ gets self q 1))
    else (Ok (Yield None, Suspended i),
          mkWorld (conn w) (broker w) (trace w ++ gets self q 1)).
Proof.
  intros Hp Hq. unfold Consumer.iterqueue. rewrite Hp. unfold bind at 1.
  rewrite (fetch_none self q qs bound None false w Hq).
  cbn [is_None override_if_not_None]. rewrite andb_true_r.
  destruct (negb infinite || past_limit limit i); reflexivity.
Qed.

(** Without an effective limit the finite sequence is the whole queue. *)
Lemma iterqueue_drains limit (msgs : list Message) :
  limit_truthy limit = false ->
  forall (p : pc) (i fuel : nat) (w : World C),
    next_iteration p = Some i ->
    broker w !! q_name q = Some msgs ->
    (length msgs < fuel)%nat ->
    collect fuel (Consumer.iterqueue self limit false) p w =
      (Ok (Some (map Some msgs)),
       mkWorld (conn w) (<[q_name q := []]> (broker w))
               (trace w ++ gets self q (S (length msgs)))).
Proof.
  intros Hl. induction msgs as [|m ms IH]; intros p i fuel w Hp Hq Hfuel;
    (destruct fuel as [|fuel]; [simpl in Hfuel; lia|]);
    cbn [collect]; unfold bind at 1.
  - rewrite (iterqueue_next_nothing limit false p i w Hp)
      by (unfold available; now rewrite Hq).
    cbn [negb orb]. unfold ret. now rewrite insert_id.
  - rewrite (iterqueue_next_message limit false p i w m ms Hp Hq).
    rewrite (past_limit_falsy limit Hl). unfold bind at 1.
    rewrite (IH (Suspended i) (S i) fuel (after_get self q ms w));
      [ | reflexivity | apply lookup_insert_eq | simpl in Hfuel; lia ].
    unfold ret, after_get, gets. cbn [conn broker trace option_map map length].
    rewrite insert_insert_eq, <- app_assoc. reflexivity.
Qed.

(** With [infinite] set and [k] items left below the limit, the rest of
    the sequence is [k] items, whatever the queue holds. *)
Lemma iterqueue_infinite_from (n k : nat) :
  forall (msgs : list Message) (p : pc) (i fuel : nat) (w : World C),
    (0 < n)%nat -> (i + k = n)%nat -> next_iteration p = Some i ->
    broker w !! q_name q = Some msgs ->
    (k < fuel)%nat ->
    collect fuel (Consumer.iterqueue self (Some (Z.of_nat n)) true) p w =
      (Ok (Some (fetched k msgs)),
       mkWorld (conn w) (<[q_name q := drop (S k) msgs]> (broker w))
               (trace w ++ gets self q (S k))).
Proof.
  induction k as [|k IH]; intros msgs p i fuel w Hn Hk Hp Hq Hfuel;
    (destruct fuel as [|fuel]; [lia|]); cbn [collect]; unfold bind at 1.
  - destruct msgs as [|m ms].
    + rewrite (iterqueue_next_nothing _ true p i w Hp)
        by (unfold available; now rewrite Hq).
      rewrite past_limit_reached by lia. cbn [negb orb]. unfold ret.
      now rewrite drop_nil, insert_id.
    + rewrite (iterqueue_next_message _ true p i w m ms Hp Hq).
      rewrite past_limit_reached by lia. reflexivity.
  - destruct msgs as [|m ms].
    + rewrite (iterqueue_next_nothing _ true p i w Hp)
        by (unfold available; now rewrite Hq).
      rewrite past_limit_not_reached by lia. cbn [negb orb]. unfold bind at 1.
      rewrite (IH [] (Suspended i) (S i) fuel
                  (mkWorld (conn w) (broker w) (trace w ++ gets self q 1)));
        cbn [conn broker trace];
        [ | lia | lia | reflexivity | exact Hq | lia ].
      unfold ret, fetched, gets. cbn [option_map length].
      rewrite !take_nil, !Nat.sub_0_r, !drop_nil, <- app_assoc. reflexivity.
    + rewrite (iterqueue_next_message _ true p i w m ms Hp Hq).
      rewrite past_limit_not_reached by lia. unfold bind at 1.
      rewrite (IH ms (Suspended i) (S i) fuel (after_get self q ms w));
        [ | lia | lia | reflexivity | apply lookup_insert_eq | lia ].
      unfold ret, fetched, after_get, gets.
      cbn [conn broker trace option_map take drop map length app repeat Nat.sub].
      rewrite insert_insert_eq, <- app_assoc. reflexivity.
Qed.

(** With [infinite] set and no effective limit every call of [next]
    yields what one more fetch returned. *)
Lemma iterqueue_endless_from limit (k : nat) :
  limit_truthy limit = false ->
  forall (msgs : list Message) (p : pc) (i : nat) (w : World C),
    next_iteration p = Some i ->
    broker w !! q_name q = Some msgs ->
    advance (S k) (Consumer.iterqueue self limit true) p w =
      (Ok (map Yield (fetched (S k) msgs), Suspended (i + k)),
       mkWorld (conn w) (<[q_name q := drop (S k) msgs]> (broker w))
               (trace w ++ gets self q (S k))).
Proof.
  intros Hl. induction k as [|k IH]; intros msgs p i w Hp Hq.
  - cbn [advance]. unfold bind at 1.
    replace (i + 0)%nat with i by lia.
    destruct msgs as [|m ms].
    + rewrite (iterqueue_next_nothing limit true p i w Hp)
        by (unfold available; now rewrite Hq).
      rewrite (past_limit_falsy limit Hl). cbn [negb orb fst snd]. unfold bind, ret.
      now rewrite drop_nil, insert_id.
    + rewrite (iterqueue_next_message limit true p i w m ms Hp Hq).
      rewrite (past_limit_falsy limit Hl). cbn [fst snd]. unfold bind, ret.
      unfold fetched, after_get. cbn. now rewrite drop_0, take_0.
  - cbn [advance]. unfold bind at 1.
    destruct msgs as [|m ms].
    + rewrite (iterqueue_next_nothing limit true p i w Hp)
        by (unfold available; now rewrite Hq).
      rewrite (past_limit_falsy limit Hl). cbn [negb orb fst snd]. unfold bind at 1.
      pose proof (IH [] (Suspended i) (S i)
                    (mkWorld (conn w) (broker w) (trace w ++ gets self q 1))
                    eq_refl Hq) as Hk.
      cbn [advance] in Hk. rewrite Hk. unfold ret, fetched, gets.
      cbn [conn broker trace fst snd length].
      rewrite !take_nil, !Nat.sub_0_r, !drop_nil, <- app_assoc.
      now replace (S i + k)%nat with (i + S k)%nat by lia.
    + rewrite (iterqueue_next_message limit true p i w m ms Hp Hq).
      rewrite (past_limit_falsy limit Hl). cbn [fst snd]. unfold bind at 1.
      pose proof (IH ms (Suspended i) (S i) (after_get self q ms w)
                    eq_refl (lookup_insert_eq _ _ _)) as Hk.
      cbn [advance] in Hk. rewrite Hk. unfold ret, fetched, after_get, gets.
      cbn [conn broker trace fst snd take drop map length app repeat Nat.sub].
      rewrite insert_insert_eq, <- app_assoc.
      now replace (S i + k)%nat with (i + S k)%nat by lia.
Qed.

End FetchStep.

(** X6. Without an effective limit ([None] or [0]),
    [iterqueue(infinite=False)] run to its end yields every waiting
    message of the bound queue, in order, and leaves the queue empty; it
    makes one fetch more than there were messages, the one that found
    the queue empty. *)
Theorem iterqueue_without_limit_drains_queue
    {C : Type} (self : Consumer.t) (q : Queue) (qs : list Queue)
    (limit : option Z) (msgs : list Message) (fuel : nat) (w : World C) :
  Consumer.queues self = q :: qs ->
  limit = None \/ limit = Some 0 ->
  broker w !! q_name q = Some msgs ->
  (length msgs < fuel)%nat ->
  collect fuel (Consumer.iterqueue self limit false) Fresh w =
    (Ok (Some (map Some msgs)),
     mkWorld (conn w) (<[q_name q := []]> (broker w))
             (trace w ++ gets self q (S (length msgs)))).
Proof.
  intros Hbound Hl Hq Hfuel.
  apply (iterqueue_drains self q qs Hbound limit msgs) with (i := 0%nat);
    [destruct Hl as [-> | ->]; reflexivity | reflexivity | exact Hq | exact Hfuel].
Qed.

Lemma iterqueue_without_limit_drains_queue_witness :
  collect 4 (Consumer.iterqueue (orders_consumer false) (Some 0) false) Fresh three_orders =
    (Ok (Some (map Some [mkMessage 10 1; mkMessage 20 2; mkMessage 30 3])),
     mkWorld (conn three_orders) (<[q_name orders_queue := []]> (broker three_orders))
             (trace three_orders
                ++ gets (orders_consumer false) orders_queue
                        (S (length [mkMessage 10 1; mkMessage 20 2; mkMessage 30 3])))).
Proof.
  apply (iterqueue_without_limit_drains_queue (orders_consumer false) orders_queue []
           (Some 0) [mkMessage 10 1; mkMessage 20 2; mkMessage 30 3] 4 three_orders).
  - reflexivity.
  - right. reflexivity.
  - vm_compute. reflexivity.
  - simpl. lia.
Defined.

(** X7. With [infinite=True] and a positive limit [N], [iterqueue] run
    to its end yields exactly [N] items whatever the queue holds: the
    waiting messages first and [None] for every fetch that found the
    queue empty.  It makes [N + 1] fetches. *)
Theorem iterqueue_infinite_yields_exactly_limit
    {C : Type} (self : Consumer.t) (q : Queue) (qs : list Queue)
    (N : Z) (msgs : list Message) (fuel : nat) (w : World C) :
  Consumer.queues self = q :: qs ->
  1 <= N ->
  broker w !! q_name q = Some msgs ->
  (Z.to_nat N < fuel)%nat ->
  collect fuel (Consumer.iterqueue self (Some N) true) Fresh w =
    (Ok (Some (fetched (Z.to_nat N) msgs)),
     mkWorld (conn w) (<[q_name q := drop (S (Z.to_nat N)) msgs]> (broker w))
             (trace w ++ gets self q (S (Z.to_nat N))))
  /\ length (fetched (Z.to_nat N) msgs) = Z.to_nat N.
Proof.
  intros Hbound HN Hq Hfuel.
  remember (Z.to_nat N) as n eqn:En.
  assert (HNn : N = Z.of_nat n) by lia. subst N.
  split.
  - apply (iterqueue_infinite_from self q qs Hbound n n msgs Fresh 0 fuel w);
      [lia | lia | reflexivity | exact Hq | exact Hfuel].
  - unfold fetched. rewrite length_app, length_map, length_take, repeat_length. lia.
Qed.

Lemma iterqueue_infinite_yields_exactly_limit_witness :
  collect 6 (Consumer.iterqueue (orders_consumer false) (Some 5) true) Fresh three_orders =
    (Ok (Some (fetched (Z.to_nat 5) [mkMessage 10 1; mkMessage 20 2; mkMessage 30 3])),
     mkWorld (conn three_orders)
             (<[q_name orders_queue
                := drop (S (Z.to_nat 5)) [mkMessage 10 1; mkMessage 20 2; mkMessage 30 3]]>
                (broker three_orders))
             (trace three_orders
                ++ gets (orders_consumer false) orders_queue (S (Z.to_nat 5))))
  /\ length (fetched (Z.to_nat 5) [mkMessage 10 1; mkMessage 20 2; mkMessage 30 3])
     = Z.to_nat 5.
Proof.
  apply (iterqueue_infinite_yields_exactly_limit (orders_consumer false) orders_queue []
           5 [mkMessage 10 1; mkMessage 20 2; mkMessage 30 3] 6 three_orders).
  - reflexivity.
  - lia.
  - vm_compute. reflexivity.
  - simpl. lia.
Defined.

(** ** Iterating a consumer *)

Section Endless.

Context {C : Type}.
Variable self : Consumer.t.
Variable q : Queue.
Variable qs : list Queue.
Hypothesis bound : Consumer.queues self = q :: qs.
Variable limit : option Z.
Hypothesis limit_falsy : limit_truthy limit = false.

Lemma iterqueue_endless_never_ends (fuel : nat) :
  forall (p : pc) (w : World C),
    p <> Finished ->
    fst (collect fuel (Consumer.iterqueue self limit true) p w) = Ok None.
Proof.
  induction fuel as [|fuel IH]; intros p w Hp; [reflexivity|].
  assert (Hi : exists i, next_iteration p = Some i).
  { destruct p; [eexists; reflexivity | eexists; reflexivity | congruence]. }
  destruct Hi as [i Hi].
  cbn [collect]. unfold bind at 1.
  destruct (available w q) as [|m ms] eqn:Ha.
  - rewrite (iterqueue_next_nothing self q qs bound limit true p i w Hi Ha).
    rewrite (past_limit_falsy limit limit_falsy). cbn [negb orb]. unfold bind at 1.
    match goal with
    | |- context [collect fuel ?g ?p' ?w'] =>
        pose proof (IH p' w' ltac:(discriminate)) as Hr;
        destruct (collect fuel g p' w') as [[r|e] w'']
    end; simpl in Hr; [|discriminate].
    injection Hr as ->. reflexivity.
  - rewrite (iterqueue_next_message self q qs bound limit true p i w m ms Hi
               (available_cons q w m ms Ha)).
    rewrite (past_limit_falsy limit limit_falsy). unfold bind at 1.
    match goal with
    | |- context [collect fuel ?g ?p' ?w'] =>
        pose proof (IH p' w' ltac:(discriminate)) as Hr;
        destruct (collect fuel g p' w') as [[r|e] w'']
    end; simpl in Hr; [|discriminate].
    injection Hr as ->. reflexivity.
Qed.

End Endless.

(** X8. Iterating a consumer never ends: each of any number of calls of
    [next] makes one fetch and yields its result, the waiting messages
    in order and [None] once the queue is empty, and collecting the
    sequence runs out of any fuel. *)
Theorem iter_consumer_never_ends
    {C : Type} (self : Consumer.t) (q : Queue) (qs : list Queue)
    (msgs : list Message) (k : nat) (w : World C) :
  Consumer.queues self = q :: qs ->
  broker w !! q_name q = Some msgs ->
  advance (S k) (Consumer.__iter__ self) Fresh w =
    (Ok (map Yield (fetched (S k) msgs), Suspended k),
     mkWorld (conn w) (<[q_name q := drop (S k) msgs]> (broker w))
             (trace w ++ gets self q (S k)))
  /\ forall fuel : nat, fst (collect fuel (Consumer.__iter__ self) Fresh w) = Ok None.
Proof.
  intros Hbound Hq. split.
  - apply (iterqueue_endless_from self q qs Hbound None k eq_refl msgs Fresh 0 w);
      [reflexivity | exact Hq].
  - intros fuel.
    apply (iterqueue_endless_never_ends self q qs Hbound None eq_refl fuel Fresh w).
    discriminate.
Qed.

Lemma iter_consumer_never_ends_witness :
  advance (S 4) (Consumer.__iter__ (orders_consumer false)) Fresh three_orders =
    (Ok (map Yield (fetched (S 4) [mkMessage 10 1; mkMessage 20 2; mkMessage 30 3]),
         Suspended 4),
     mkWorld (conn three_orders)
             (<[q_name orders_queue
                := drop (S 4) [mkMessage 10 1; mkMessage 20 2; mkMessage 30 3]]>
                (broker three_orders))
             (trace three_orders ++ gets (orders_consumer false) orders_queue (S 4)))
  /\ forall fuel : nat,
       fst (collect fuel (Consumer.__iter__ (orders_consumer false)) Fresh three_orders)
       = Ok None.
Proof.
  apply (iter_consumer_never_ends (orders_consumer false) orders_queue []
           [mkMessage 10 1; mkMessage 20 2; mkMessage 30 3] 4 three_orders).
  - reflexivity.
  - vm_compute. reflexivity.
Defined.

(** X9. A negative limit ends [iterqueue] at the first call of [next],
    but only after that call fetched: nothing is yielded, and the first
    waiting message is off the queue all the same. *)
Theorem iterqueue_negative_limit_loses_message
    {C : Type} (self : Consumer.t) (q : Queue) (qs : list Queue)
    (N : Z) (infinite : bool) (m : Message) (ms : list Message)
    (fuel : nat) (w : World C) :
  Consumer.queues self = q :: qs ->
  N < 0 ->
  broker w !! q_name q = Some (m :: ms) ->
  collect (S fuel) (Consumer.iterqueue self (Some N) infinite) Fresh w =
    (Ok (Some []),
     mkWorld (conn w) (<[q_name q := ms]> (broker w)) (trace w ++ gets self q 1)).
Proof.
  intros Hbound HN Hq. cbn [collect]. unfold bind at 1.
  rewrite (iterqueue_next_message self q qs Hbound (Some N) infinite Fresh 0 w m ms
             eq_refl Hq).
  assert (Hp : past_limit (Some N) 0 = true).
  { unfold past_limit, limit_truthy. apply andb_true_intro. split.
    - apply negb_true_iff, Z.eqb_neq. lia.
    - apply Z.geb_le. simpl. lia. }
  rewrite Hp. reflexivity.
Qed.

Lemma iterqueue_negative_limit_loses_message_witness :
  collect (S 0) (Consumer.iterqueue (orders_consumer false) (Some (-1)) false) Fresh
          three_orders =
    (Ok (Some []),
     mkWorld (conn three_orders)
             (<[q_name orders_queue := [mkMessage 20 2; mkMessage 30 3]]>
                (broker three_orders))
             (trace three_orders ++ gets (orders_consumer false) orders_queue 1)).
Proof.
  apply (iterqueue_negative_limit_loses_message (orders_consumer false) orders_queue []
           (-1) false (mkMessage 10 1) [mkMessage 20 2; mkMessage 30 3] 0 three_orders).
  - reflexivity.
  - lia.
  - vm_compute. reflexivity.
Defined.

(** ** Closing and scopes *)

Lemma publisher_close_runs {C} (self : Publisher.t) (w : World C) :
  exists (s : Publisher.t) (added : list Event),
    Publisher.close self w = (Ok s, mkWorld (conn w) (broker w) (trace w ++ added))
    /\ Publisher._closed s = true
    /\ Publisher.channel s = Publisher.channel self
    /\ Publisher._provided_channel s = Publisher._provided_channel self
    /\ added = match Publisher.channel self with
               | Some ch =>
                   if Publisher._provided_channel self then [EProducerClose]
                   else [EChannelClose ch; EProducerClose]
               | None => [EProducerClose]
               end.
Proof.
  unfold Publisher.close.
  destruct self as [e et rk d ad [ch|] [|] cl];
    cbn [Publisher.channel Publisher._provided_channel negb];
    unfold bind, messaging.Producer_close, log, ret; cbn [conn broker trace];
    rewrite <- ?app_assoc; eexists _, _; repeat split.
Qed.

(** X10. [Publisher.close()] does not read [_closed]: a second
    [close()] on a publisher that owns its channel closes that channel
    again and delegates to the parent once more. *)
Theorem publisher_close_twice_closes_twice
    {C : Type} (self : Publisher.t) (ch : Channel) (w : World C) :
  Publisher.channel self = Some ch ->
  Publisher._provided_channel self = false ->
  exists s : Publisher.t,
    (s1 <- Publisher.close self ;; Publisher.close s1) w =
      (Ok s,
       mkWorld (conn w) (broker w)
               (trace w ++ [EChannelClose ch; EProducerClose;
                            EChannelClose ch; EProducerClose]))
    /\ Publisher._closed s = true.
Proof.
  intros Hch Hown.
  destruct (publisher_close_runs self w) as (s1 & a1 & H1 & Hc1 & Hch1 & Hp1 & Ha1).
  destruct (publisher_close_runs s1 (mkWorld (conn w) (broker w) (trace w ++ a1)))
    as (s2 & a2 & H2 & Hc2 & Hch2 & Hp2 & Ha2).
  exists s2. split; [|exact Hc2].
  unfold bind at 1. rewrite H1, H2. cbn [conn broker trace].
  rewrite Ha2, Hch1, Hp1, Ha1, Hch, Hown. now rewrite <- app_assoc.
Qed.

Lemma publisher_close_twice_closes_twice_witness :
  exists s : Publisher.t,
    (s1 <- Publisher.close
             (Publisher.mk orders_exchange "direct" "new" true false (Some 5%nat)
                           false false) ;;
     Publisher.close s1) idle =
      (Ok s,
       mkWorld (conn idle) (broker idle)
               (trace idle ++ [EChannelClose 5%nat; EProducerClose;
                               EChannelClose 5%nat; EProducerClose]))
    /\ Publisher._closed s = true.
Proof.
  apply (publisher_close_twice_closes_twice
           (Publisher.mk orders_exchange "direct" "new" true false (Some 5%nat) false false)
           5%nat idle); reflexivity.
Defined.

(** X11. A publisher used in a [with] statement is closed exactly once
    when the body is left, in the world that the body left, whether the
    body returned or raised; an exception of the body is not
    suppressed. *)
Theorem publisher_scope_closes_on_exit
    {C A : Type} (self : Publisher.t) (body : Publisher.t -> M C A) (w : World C) :
  exists (s : Publisher.t) (w' : World C),
    Publisher.close self (snd (body self w)) = (Ok s, w')
    /\ Publisher._closed s = true
    /\ with_ Publisher.__enter__ Publisher.__exit__ self body w =
         (match fst (body self w) with
          | Ok a => Ok (Some a, s)
          | Raise e => Raise e
          end, w').
Proof.
  destruct (publisher_close_runs self (snd (body self w)))
    as (s & added & Hclose & Hclosed & _).
  eexists s, _. split; [exact Hclose|]. split; [exact Hclosed|].
  unfold with_, Publisher.__enter__, Publisher.__exit__, ret.
  destruct (body self w) as [[a|e] w1]; cbn [fst snd] in *;
    unfold bind; rewrite Hclose; reflexivity.
Qed.


(** X12. [Consumer.close()] cancels the consumer and then closes the
    channel in [backend], whether or not consuming was started.  After
    [revive(channel)] that is the channel of the revival: the channel
    that the constructor opened is not closed.  [close()] does not read
    [_closed], so a second call cancels and closes again. *)
Theorem consumer_close_after_revive
    {C V : Type} `{Connection C V}
    (k : Consumer.attrs) (queue exchange routing_key exchange_type : option string)
    (durable exclusive auto_delete : option bool) (policy : bool)
    (channel : Channel) (w : World C) :
  exists (s : Consumer.t) (opened : Channel),
    opened = fst (open_channel (conn w))
    /\ (c <- Consumer.__init__ k queue exchange routing_key exchange_type durable
                               exclusive auto_delete policy ;;
        r <- Consumer.revive c channel ;;
        s1 <- Consumer.close r ;;
        Consumer.close s1) w =
         (Ok s,
          mkWorld (snd (open_channel (conn w))) (broker w)
                  (trace w ++ [EChannelOpen opened; ECancel; EChannelClose channel;
                               ECancel; EChannelClose channel]))
    /\ Consumer._closed s = true
    /\ Consumer.backend s = channel
    /\ Consumer.queue s = py_or str_truthy queue (Consumer.cls_queue k).
Proof.
  unfold Consumer.__init__, Consumer.revive, Consumer.close,
    messaging.Consumer_init, messaging.revive, messaging.cancel, connection_channel,
    log, ret.
  repeat (unfold bind; cbv beta).
  destruct (open_channel (conn w)) as [ch c']. cbn [conn broker trace fst snd].
  exists (Consumer.mk
            (messaging.mkConsumer channel
               [mkQueue (py_or str_truthy queue (Consumer.cls_queue k))
                  (mkExchange (py_or str_truthy exchange (Consumer.cls_exchange k))
                     (py_or str_truthy exchange_type (Consumer.cls_exchange_type k))
                     (py_or str_truthy routing_key (Consumer.cls_routing_key k))
                     (override_if_not_None auto_delete (Consumer.cls_auto_delete k))
                     (override_if_not_None durable (Consumer.cls_durable k)))
                  (py_or str_truthy routing_key (Consumer.cls_routing_key k))
                  (override_if_not_None durable (Consumer.cls_durable k))
                  (override_if_not_None exclusive (Consumer.cls_exclusive k))
                  (override_if_not_None auto_delete (Consumer.cls_auto_delete k))]
               policy)
            channel
            (py_or str_truthy queue (Consumer.cls_queue k))
            (py_or str_truthy exchange (Consumer.cls_exchange k))
            (py_or str_truthy routing_key (Consumer.cls_routing_key k))
            (py_or str_truthy exchange_type (Consumer.cls_exchange_type k))
            (override_if_not_None durable (Consumer.cls_durable k))
            (override_if_not_None exclusive (Consumer.cls_exclusive k))
            (override_if_not_None auto_delete (Consumer.cls_auto_delete k))
            true), ch.
  split; [reflexivity|]. split.
  - cbn [Consumer.base Consumer.backend Consumer.queue Consumer.exchange
         Consumer.routing_key Consumer.exchange_type Consumer.durable
         Consumer.exclusive Consumer.auto_delete messaging.channel messaging.queues
         messaging.no_ack].
    rewrite <- ?app_assoc. reflexivity.
  - repeat split.
Qed.


(** ** A constructed consumer *)

(** X14. A consumer that the constructor built has exactly one bound
    queue, so [fetch] on it never fails on [queues[0]]: the constructor
    opens one channel, which is both [backend] and the channel of the
    base class, and [fetch] makes its one [get] on the queue named by the
    resolved [queue] field, under [no_ack] or else the policy of the
    instance, and returns the first waiting message of that queue, if
    any. *)
Theorem constructed_consumer_fetches
    {C V : Type} `{Connection C V}
    (k : Consumer.attrs) (queue exchange routing_key exchange_type : option string)
    (durable exclusive auto_delete : option bool) (policy : bool)
    (no_ack : option bool) (enable_callbacks : bool) (w : World C) :
  exists (c : Consumer.t) (w1 w2 : World C),
    Consumer.__init__ k queue exchange routing_key exchange_type durable exclusive
                      auto_delete policy w = (Ok c, w1)
    /\ trace w1 = trace w ++ [EChannelOpen (Consumer.backend c)]
    /\ Consumer.backend c = fst (open_channel (conn w))
    /\ messaging.channel (Consumer.base c) = Consumer.backend c
    /\ length (Consumer.queues c) = 1%nat
    /\ Consumer.fetch c no_ack enable_callbacks w1
       = (Ok (head (default [] (broker w !! Consumer.queue c))), w2)
    /\ List.filter is_get (trace w2)
       = List.filter is_get (trace w)
           ++ [EGet (Consumer.queue c) (override_if_not_None no_ack policy)].
Proof.
  unfold Consumer.__init__, messaging.Consumer_init, connection_channel, ret.
  repeat (unfold bind; cbv beta).
  destruct (open_channel (conn w)) as [ch c'] eqn:Ho.
  match goal with
  | |- exists c w1 w2, (Ok ?c0, ?w0) = _ /\ _ =>
      set (c1 := c0); set (w1 := w0)
  end.
  assert (Hbound : Consumer.queues c1 = hd orders_queue (Consumer.queues c1) :: [])
    by reflexivity.
  set (qd := hd orders_queue (Consumer.queues c1)) in *.
  assert (Hname : q_name qd = Consumer.queue c1) by reflexivity.
  assert (Hpol : Consumer.no_ack c1 = policy) by reflexivity.
  destruct (available w1 qd) as [|m ms] eqn:Ha.
  - pose proof (fetch_none c1 qd [] Hbound no_ack enable_callbacks w1 Ha) as Hf.
    exists c1, w1. eexists.
    split; [reflexivity|]. split; [reflexivity|]. split; [reflexivity|].
    split; [reflexivity|]. split; [reflexivity|]. split.
    + rewrite Hf. f_equal. f_equal. unfold available in Ha.
      rewrite Hname in Ha. cbn [broker w1] in Ha. now rewrite Ha.
    + cbn [trace]. rewrite Hname, Hpol.
      subst w1. cbn [trace]. rewrite !List.filter_app. cbn [List.filter is_get].
      now rewrite app_nil_r.
  - pose proof (fetch_some c1 qd [] Hbound no_ack enable_callbacks w1 m ms
                  (available_cons qd w1 m ms Ha)) as Hf.
    exists c1, w1. eexists.
    split; [reflexivity|]. split; [reflexivity|]. split; [reflexivity|].
    split; [reflexivity|]. split; [reflexivity|]. split.
    + rewrite Hf. f_equal. f_equal. unfold available in Ha.
      rewrite Hname in Ha. cbn [broker w1] in Ha. now rewrite Ha.
    + cbn [trace]. rewrite Hname, Hpol.
      subst w1. cbn [trace]. rewrite !List.filter_app.
      destruct enable_callbacks; cbn [List.filter is_get app];
        now rewrite ?app_nil_r.
Qed.

(** ** Extending a [ConsumerSet] *)

(** A loop of calls that each succeed, change the object by [g] and
    record the calls [ev]. *)
Lemma fold_left_calls {C S X : Type}
    (f : S -> X -> M C S) (g : S -> X -> S) (ev : X -> list Event) :
  (forall s x w,
     f s x w = (Ok (g s x), mkWorld (conn w) (broker w) (trace w ++ ev x))) ->
  forall (xs : list X) (m : M C S) (s0 : S) (w w0 : World C),
    m w = (Ok s0, w0) ->
    fold_left (fun m x => s <- m ;; f s x) xs m w =
      (Ok (fold_left g xs s0),
       mkWorld (conn w0) (broker w0) (trace w0 ++ concat (map ev xs))).
Proof.
  intros Hf. induction xs as [|x xs IH]; intros m s0 w w0 Hm.
  - cbn. now rewrite Hm, app_nil_r, world_eta.
  - cbn [fold_left map concat].
    rewrite (IH (s <- m ;; f s x) (g s0 x) w
                (mkWorld (conn w0) (broker w0) (trace w0 ++ ev x))).
    + cbn [conn broker trace]. now rewrite <- app_assoc.
    + unfold bind. now rewrite Hm, Hf.
Qed.

(** The object after [add_queue]. *)
Lemma add_queue_runs {C} (s : ConsumerSet.t) (q : Queue) (w : World C) :
  (b <- messaging.add_queue (ConsumerSet.base s) q ;;
   ret (ConsumerSet.mk b (ConsumerSet.backend s))) w =
    (Ok (extended s q),
     mkWorld (conn w) (broker w) (trace w ++ [EAddQueue (q_name q)])).
Proof. reflexivity. Qed.

Lemma fold_left_extended (qs : list Queue) :
  forall s : ConsumerSet.t,
    ConsumerSet.queues (fold_left extended qs s) = ConsumerSet.queues s ++ qs
    /\ ConsumerSet.backend (fold_left extended qs s) = ConsumerSet.backend s.
Proof.
  induction qs as [|q qs IH]; intros s; cbn [fold_left].
  - now rewrite app_nil_r.
  - destruct (IH (extended s q)) as [Hq Hb].
    rewrite Hq, Hb. unfold extended, ConsumerSet.queues.
    cbn [ConsumerSet.base ConsumerSet.backend messaging.queues].
    now rewrite <- app_assoc.
Qed.

Lemma concat_singletons {A B} (f : A -> B) (l : list A) :
  concat (map (fun a => [f a]) l) = map f l.
Proof. induction l as [|a l IH]; cbn; [reflexivity|now rewrite IH]. Qed.

Lemma add_consumer_runs {C} (self : ConsumerSet.t) (consumer : Consumer.t)
    (w : World C) :
  ConsumerSet.add_consumer self consumer w =
    (Ok (fold_left extended (Consumer.queues consumer) self),
     mkWorld (conn w) (broker w)
             (trace w ++ added_queues (Consumer.queues consumer))).
Proof.
  unfold ConsumerSet.add_consumer.
  rewrite (fold_left_calls
             (fun s q => b <- messaging.add_queue (ConsumerSet.base s) q ;;
                         ret (ConsumerSet.mk b (ConsumerSet.backend s)))
             extended (fun q => [EAddQueue (q_name q)])
             add_queue_runs (Consumer.queues consumer) (ret self) self w w eq_refl).
  unfold added_queues. now rewrite concat_singletons.
Qed.

(** X15. [add_consumer(consumer)] makes one [add_queue] call for each
    queue of the consumer, in their order, and extends the queue
    collection by exactly those queues, at its end; a consumer without
    queues leaves the set as it was. *)
Theorem add_consumer_appends_all_queues
    {C : Type} (self : ConsumerSet.t) (consumer : Consumer.t) (w : World C) :
  exists s : ConsumerSet.t,
    ConsumerSet.add_consumer self consumer w =
      (Ok s, mkWorld (conn w) (broker w)
                     (trace w ++ added_queues (Consumer.queues consumer)))
    /\ ConsumerSet.queues s = ConsumerSet.queues self ++ Consumer.queues consumer
    /\ length (added_queues (Consumer.queues consumer))
       = length (Consumer.queues consumer)
    /\ (Consumer.queues consumer = [] ->
        ConsumerSet.add_consumer self consumer w = (Ok self, w)).
Proof.
  exists (fold_left extended (Consumer.queues consumer) self).
  split; [apply add_consumer_runs|].
  split; [apply fold_left_extended|]. split.
  - unfold added_queues. apply length_map.
  - intros Hempty. unfold ConsumerSet.add_consumer. rewrite Hempty. reflexivity.
Qed.

(** ** Construction and incremental extension of a [ConsumerSet] *)

Section SetConstruction.

Context {Options C V : Type} `{Connection C V}.
Variable entry_to_queue : string -> Options -> Queue.

Lemma consumerset_init_runs
    (from_dict : option (list (string * Options)))
    (consumers : option (list Consumer.t)) (policy : bool) (w : World C) :
  ConsumerSet.__init__ entry_to_queue from_dict consumers policy w =
    (Ok (ConsumerSet.mk
           (messaging.mkConsumer
              (fst (open_channel (conn w)))
              (concat (map Consumer.queues (default [] consumers))
                 ++ map (fun item => entry_to_queue (fst item) (snd item))
                        (default [] from_dict))
              policy)
           (fst (open_channel (conn w)))),
     mkWorld (snd (open_channel (conn w))) (broker w)
             (trace w ++ [EChannelOpen (fst (open_channel (conn w)))])).
Proof.
  unfold ConsumerSet.__init__, bind, connection_channel, messaging.Consumer_init, ret.
  destruct (open_channel (conn w)) as [ch c']. cbn [fst snd].
  match goal with
  | |- (Ok (ConsumerSet.mk (messaging.mkConsumer _ ?Q _) _), _) = _ =>
      assert (HQ : Q = concat (map Consumer.queues (default [] consumers))
                         ++ map (fun item => entry_to_queue (fst item) (snd item))
                                (default [] from_dict))
  end.
  { destruct consumers as [[|c cs]|], from_dict as [[|item items]|];
      cbn [default]; unfold id; rewrite ?app_nil_r; try reflexivity.
    - exact (fold_left_append (fun item => entry_to_queue (fst item) (snd item))
                              (item :: items) []).
    - exact (fold_left_extend Consumer.queues (c :: cs) []).
    - rewrite (fold_left_extend Consumer.queues (c :: cs) []).
      exact (fold_left_append (fun item => entry_to_queue (fst item) (snd item))
                              (item :: items) _).
    - exact (fold_left_extend Consumer.queues (c :: cs) []).
    - exact (fold_left_append (fun item => entry_to_queue (fst item) (snd item))
                              (item :: items) []). }
  now rewrite HQ.
Qed.

Lemma fold_left_extended_eq (qs : list Queue) :
  forall s : ConsumerSet.t,
    fold_left extended qs s =
      ConsumerSet.mk
        (messaging.mkConsumer (messaging.channel (ConsumerSet.base s))
                              (ConsumerSet.queues s ++ qs)
                              (messaging.no_ack (ConsumerSet.base s)))
        (ConsumerSet.backend s).
Proof.
  induction qs as [|q qs IH]; intros s; cbn [fold_left].
  - destruct s as [[ch l na] b]. unfold ConsumerSet.queues.
    cbn [ConsumerSet.base ConsumerSet.backend messaging.queues messaging.channel
         messaging.no_ack].
    now rewrite app_nil_r.
  - rewrite IH. unfold extended, ConsumerSet.queues.
    cbn [ConsumerSet.base ConsumerSet.backend messaging.queues messaging.channel
         messaging.no_ack].
    now rewrite <- app_assoc.
Qed.

Lemma fold_left_consumers_eq (cs : list Consumer.t) :
  forall s : ConsumerSet.t,
    fold_left (fun s c => fold_left extended (Consumer.queues c) s) cs s =
      ConsumerSet.mk
        (messaging.mkConsumer (messaging.channel (ConsumerSet.base s))
                              (ConsumerSet.queues s ++ concat (map Consumer.queues cs))
                              (messaging.no_ack (ConsumerSet.base s)))
        (ConsumerSet.backend s).
Proof.
  induction cs as [|c cs IH]; intros s; cbn [fold_left map concat].
  - exact (fold_left_extended_eq [] s).
  - rewrite IH, fold_left_extended_eq. unfold ConsumerSet.queues.
    cbn [ConsumerSet.base ConsumerSet.backend messaging.queues messaging.channel
         messaging.no_ack].
    now rewrite <- app_assoc.
Qed.

Lemma fold_left_items_eq (items : list (string * Options)) :
  forall s : ConsumerSet.t,
    fold_left (fun s item => extended s (entry_to_queue (fst item) (snd item))) items s =
      ConsumerSet.mk
        (messaging.mkConsumer
           (messaging.channel (ConsumerSet.base s))
           (ConsumerSet.queues s
              ++ map (fun item => entry_to_queue (fst item) (snd item)) items)
           (messaging.no_ack (ConsumerSet.base s)))
        (ConsumerSet.backend s).
Proof.
  induction items as [|item items IH]; intros s; cbn [fold_left map].
  - exact (fold_left_extended_eq [] s).
  - rewrite IH. unfold extended, ConsumerSet.queues.
    cbn [ConsumerSet.base ConsumerSet.backend messaging.queues messaging.channel
         messaging.no_ack].
    now rewrite <- app_assoc.
Qed.

Lemma added_queues_concat (cs : list Consumer.t) :
  concat (map (fun c => added_queues (Consumer.queues c)) cs)
  = added_queues (concat (map Consumer.queues cs)).
Proof.
  unfold added_queues. induction cs as [|c cs IH]; cbn [map concat]; [reflexivity|].
  now rewrite IH, map_app.
Qed.

End SetConstruction.

(** X16. Building a [ConsumerSet] from [consumers] and [from_dict] gives
    the set that an empty [ConsumerSet] becomes when [add_consumer] is
    called for each consumer and then [add_consumer_from_dict] for each
    entry, in order; the incremental way makes one [add_queue] call for
    each queue of the result. *)
Theorem consumerset_construction_is_incremental
    {Options C V : Type} `{Connection C V}
    (entry_to_queue : string -> Options -> Queue)
    (consumers : list Consumer.t) (items : list (string * Options))
    (policy : bool) (w : World C) :
  exists (s s0 : ConsumerSet.t) (w' : World C),
    ConsumerSet.__init__ entry_to_queue (Some items) (Some consumers) policy w = (Ok s, w')
    /\ ConsumerSet.__init__ entry_to_queue None None policy w = (Ok s0, w')
    /\ ConsumerSet.queues s0 = []
    /\ add_all entry_to_queue s0 consumers items w' =
         (Ok s, mkWorld (conn w') (broker w')
                        (trace w' ++ added_queues (ConsumerSet.queues s))).
Proof.
  eexists _, _, _.
  split; [apply consumerset_init_runs|].
  split; [apply consumerset_init_runs|].
  split; [reflexivity|].
  cbn [default]. unfold id. unfold add_all. unfold bind at 1.
  erewrite (fold_left_calls (C := C) ConsumerSet.add_consumer
              (fun s c => fold_left extended (Consumer.queues c) s)
              (fun c => added_queues (Consumer.queues c))
              add_consumer_runs consumers (ret _) _ _ _ eq_refl).
  erewrite (fold_left_calls (C := C)
              (fun s item =>
                 ConsumerSet.add_consumer_from_dict entry_to_queue s (fst item) (snd item))
              (fun s item => extended s (entry_to_queue (fst item) (snd item)))
              (fun item => [EAddQueue (q_name (entry_to_queue (fst item) (snd item)))])
              (fun s item w0 => eq_refl) items (ret _) _ _ _ eq_refl).
  rewrite fold_left_items_eq, fold_left_consumers_eq.
  unfold ConsumerSet.queues.
  cbn [ConsumerSet.base ConsumerSet.backend messaging.queues messaging.channel
       messaging.no_ack conn broker trace app].
  rewrite added_queues_concat, concat_singletons.
  unfold added_queues. cbn [map concat app].
  rewrite map_app, map_map, !app_assoc. reflexivity.
Qed.

(** X17. [ConsumerSet.close()] on a set that the constructor built
    cancels the consumer and then closes the channel that the
    constructor opened, exactly once. *)
Theorem consumerset_closes_its_channel
    {Options C V : Type} `{Connection C V}
    (entry_to_queue : string -> Options -> Queue)
    (from_dict : option (list (string * Options)))
    (consumers : option (list Consumer.t)) (policy : bool) (w : World C) :
  exists s : ConsumerSet.t,
    (s0 <- ConsumerSet.__init__ entry_to_queue from_dict consumers policy ;;
     ConsumerSet.close s0) w =
      (Ok s,
       mkWorld (snd (open_channel (conn w))) (broker w)
               (trace w ++ [EChannelOpen (fst (open_channel (conn w)));
                            ECancel;
                            EChannelClose (fst (open_channel (conn w)))]))
    /\ ConsumerSet.backend s = fst (open_channel (conn w))
    /\ calls is_channel_close
         [EChannelOpen (fst (open_channel (conn w))); ECancel;
          EChannelClose (fst (open_channel (conn w)))] = 1%nat.
Proof.
  eexists. split; [|split; [|reflexivity]].
  - unfold bind at 1. rewrite consumerset_init_runs.
    unfold ConsumerSet.close, bind, messaging.cancel, log, ret.
    cbn [conn broker trace ConsumerSet.base messaging.channel].
    rewrite <- !app_assoc. reflexivity.
  - reflexivity.
Qed.
